(** * Message translation of azure-service-bus-go

    A shallow embedding of the message code of package [servicebus]
    (upstream [message.go], here in [src/errors.go]): the lock-token
    codec, the tag parser, the reflection-based structure projector, the
    outbound and inbound message translators, the dispositions and the
    text-map reader, followed by the properties established about them.

    Go values are embedded as follows.
    - [string] is a sequence of bytes (Rocq's [string]); [[]byte] and
      [[16]byte] are [list byte].
    - [uint32] is a [Z] with the wrap-around modulo [2^32] written out.
    - a pointer [*T] that is only tested against [nil] and read is
      [option T]; a [map] that may be [nil] is [option (gmap string _)].
    - a Go function returning [(T, error)] returns a [result]; a run-time
      panic is an outcome of its own, distinct from a returned error. *)

From Stdlib Require Import ZArith.
From Stdlib.Strings Require Import Byte Ascii.
From stdpp Require Import gmap strings list fin_maps.

Local Open Scope Z_scope.
Local Open Scope string_scope.
Local Set Warnings "-register-all".

(** ** Outcomes of a call *)

(** Run-time panics raised by the operations the source performs. *)
Inductive panic :=
  | NilDereference        (* field access through a nil pointer *)
  | IndexOutOfRange       (* [s[i]] with [i >= len(s)] *)
  | TypeAssertionFailed   (* [x.(T)] in its single-value form *)
  | UncomparableType      (* [==] on interfaces holding a slice, map, func *)
  | ElemOfNonPointer.     (* [reflect.Value.Elem] on a non-pointer kind *)

(** Errors the source builds with [fmt.Errorf], and errors handed back
    by collaborators. *)
Inductive error :=
  | InvalidDeliveryTag (tag : list byte)
      (* "the message contained an invalid delivery tag: %v" *)
  | MustProvideStruct
      (* "must provide a struct" *)
  | KeyNotUnderstood (tagKey : string)
      (* "key %q is not understood" *)
  | ForeignError (text : string).
      (* an error value produced outside this file: a decoder, a handler *)

(** The text [err.Error()] yields; [%v] and [%q] formatting of the
    argument is left symbolic. *)
Definition Error (e : error) : string :=
  match e with
  | InvalidDeliveryTag _ => "the message contained an invalid delivery tag"
  | MustProvideStruct => "must provide a struct"
  | KeyNotUnderstood k => "key " ++ k ++ " is not understood"
  | ForeignError t => t
  end.

(** A call that either returns [(x, nil)], returns [(nil, err)], or
    panics. *)
Inductive result (A : Type) :=
  | Ok (a : A)
  | Err (e : error)
  | Panic (p : panic).
Arguments Ok {A} a.
Arguments Err {A} e.
Arguments Panic {A} p.

#[global] Instance result_bind : MBind result := fun A B k r =>
  match r with
  | Ok a => k a
  | Err e => Err e
  | Panic p => Panic p
  end.

(** ** Reflection data and dynamically typed values *)

Module reflect.

(** A struct tag in its conventional form, a sequence of
    [key:"value"] pairs. *)
Definition StructTag := list (string * string).

(** [tag.Lookup(key)]: the value of the first pair with that key. *)
Fixpoint Lookup (tag : StructTag) (key : string) : option string :=
  match tag with
  | [] => None
  | (k, v) :: rest => if decide (k = key) then Some v else Lookup rest key
  end.

(** What the projector reads of a field declaration: its name, whether
    it is exported (a field reached through a pointer to its struct can
    be set exactly when it is exported), and its tag. *)
Record StructField := {
  Name : string;
  Exported : bool;
  Tag : StructTag;
}.

End reflect.

Inductive IntKind := Int16 | Int32 | Int64 | Uint32.

(** The values an [interface{}] holds and reflection walks. Every value
    determines its static type; [VNil] is the nil interface. [VBytes] is a
    slice, the representative of the types Go cannot compare. [VTime]
    stands for a [time.Time] and [VUUID] for a [uuid.UUID]. *)
Inductive value :=
  | VNil
  | VBool (b : bool)
  | VInt (k : IntKind) (n : Z)
  | VString (s : string)
  | VBytes (bs : list byte)
  | VUUID (u : list byte)
  | VTime (t : Z)
  | VPtr (p : option value)
  | VStruct (fs : list (reflect.StructField * value)).

#[global] Instance byte_eq_dec : EqDecision byte := Byte.byte_eq_dec.

#[global] Instance IntKind_eq_dec : EqDecision IntKind.
Proof. solve_decision. Defined.

#[global] Instance StructField_eq_dec : EqDecision reflect.StructField.
Proof. solve_decision. Defined.

#[global] Instance value_eq_dec : EqDecision value.
Proof.
  refine (fix go (x y : value) {struct x} : Decision (x = y) :=
    let _ : EqDecision value := go in
    match x, y with
    | VNil, VNil => left _
    | VBool a, VBool b => cast_if (decide (a = b))
    | VInt k a, VInt l b => cast_if_and (decide (k = l)) (decide (a = b))
    | VString a, VString b => cast_if (decide (a = b))
    | VBytes a, VBytes b => cast_if (decide (a = b))
    | VUUID a, VUUID b => cast_if (decide (a = b))
    | VTime a, VTime b => cast_if (decide (a = b))
    | VPtr a, VPtr b => cast_if (decide (a = b))
    | VStruct a, VStruct b => cast_if (decide (a = b))
    | _, _ => right _
    end); abstract congruence.
Defined.

(** [reflect.Zero(t)] for the static type of [v]. *)
Fixpoint zero_of (v : value) : value :=
  match v with
  | VNil => VNil
  | VBool _ => VBool false
  | VInt k _ => VInt k 0
  | VString _ => VString ""
  | VBytes _ => VBytes []
  | VUUID u => VUUID (replicate (length u) x00%byte)
  | VTime _ => VTime 0
  | VPtr _ => VPtr None
  | VStruct fs => VStruct (map (fun fv => (fv.1, zero_of fv.2)) fs)
  end.

(** Whether Go's [==] is defined on the static type of [v]: slices are
    not comparable, nor is a struct with a field that is not. *)
Fixpoint comparable (v : value) : bool :=
  match v with
  | VBytes _ => false
  | VStruct fs => forallb (fun fv => comparable fv.2) fs
  | _ => true
  end.

(** [f.Interface() != reflect.Zero(f.Type()).Interface()]: a panic when
    the type cannot be compared. A pointer inside [f] differs from the nil
    pointer of the zero value exactly when it is not nil, so nothing is lost
    by comparing what pointers point to. *)
Definition differsFromZero (f : value) : result bool :=
  if comparable f then Ok (bool_decide (f <> zero_of f))
  else Panic UncomparableType.

(** ** The wire message of the transport (package [pack.ag/amqp]) *)

Module amqp.

(** The header block. *)
Record MessageHeader := {
  Durable : bool;
  Priority : Z;
  TTL : Z;                 (* time.Duration *)
  FirstAcquirer : bool;
  DeliveryCount : Z;       (* uint32 *)
}.

(** [new(amqp.MessageHeader)]. *)
Definition zeroMessageHeader : MessageHeader :=
  {| Durable := false; Priority := 0; TTL := 0;
     FirstAcquirer := false; DeliveryCount := 0 |}.

(** The properties block. [UserID], [ContentEncoding],
    [AbsoluteExpiryTime] and [CreationTime] are never read or written by
    the translators and are left out. *)
Record MessageProperties := {
  MessageID : value;       (* interface{} *)
  To : string;
  Subject : string;
  ReplyTo : string;
  CorrelationID : value;   (* interface{} *)
  ContentType : string;
  GroupID : string;
  GroupSequence : Z;       (* uint32 *)
  ReplyToGroupID : string;
}.

(** The wire message. Annotation keys are strings, the only keys the
    translators install. A nil delivery tag is the empty list: the
    source only takes its length. *)
Record Message := {
  Header : option MessageHeader;
  DeliveryAnnotations : option (gmap string value);
  Annotations : option (gmap string value);
  Properties : option MessageProperties;
  ApplicationProperties : option (gmap string value);
  Data : list (list byte);
  DeliveryTag : list byte;
}.

(** [amqp.NewMessage(data)]. *)
Definition NewMessage (data : list byte) : Message :=
  {| Header := None; DeliveryAnnotations := None; Annotations := None;
     Properties := None; ApplicationProperties := None;
     Data := [data]; DeliveryTag := [] |}.

(** The error a rejection carries. *)
Record Error := {
  Condition : string;
  Description : string;
  Info : option (gmap string value);
}.

End amqp.

(** ** The application-facing message *)

Record SystemProperties := {
  LockedUntil : option Z;              (* *time.Time *)
  SequenceNumber : option Z;           (* *int64 *)
  PartitionID : option Z;              (* *int16 *)
  PartitionKey : option string;
  EnqueuedTime : option Z;             (* *time.Time *)
  DeadLetterSource : option string;
  ScheduledEnqueueTime : option Z;     (* *time.Time *)
  EnqueuedSequenceNumber : option Z;   (* *int64 *)
  ViaPartitionKey : option string;
}.

(** The field [SystemProperties] of the source is [SystemProps] here: a
    record field cannot bear the name of its type. *)
Record Message := {
  ContentType : string;
  CorrelationID : string;
  Data : list byte;
  DeliveryCount : Z;                   (* uint32 *)
  GroupID : option string;
  GroupSequence : option Z;            (* *uint32 *)
  ID : string;
  Label : string;
  ReplyTo : string;
  ReplyToGroupID : string;
  To : string;
  TTL : option Z;                      (* *time.Duration *)
  LockToken : option (list byte);      (* *uuid.UUID *)
  SystemProps : option SystemProperties;
  UserProperties : option (gmap string value);
  message : option amqp.Message;
}.

Record mapStructureTag := {
  Name : string;
  PersistEmpty : bool;
}.

(** [MessageErrorCondition] is a string type; the constants below are
    its well-known members. *)
Definition MessageErrorCondition := string.

Definition ErrorInternalError : MessageErrorCondition := "amqp:internal-error".
Definition ErrorUnauthorizedAccess : MessageErrorCondition := "amqp:unauthorized-access".
Definition ErrorDecodeError : MessageErrorCondition := "amqp:decode-error".
Definition ErrorResourceLimitExceeded : MessageErrorCondition := "amqp:resource-limit-exceeded".
Definition ErrorNotAllowed : MessageErrorCondition := "amqp:not-allowed".
Definition ErrorInvalidField : MessageErrorCondition := "amqp:invalid-field".
Definition ErrorNotImplemented : MessageErrorCondition := "amqp:not-implemented".
Definition ErrorResourceLocked : MessageErrorCondition := "amqp:resource-locked".
Definition ErrorPreconditionFailed : MessageErrorCondition := "amqp:precondition-failed".
Definition ErrorResourceDeleted : MessageErrorCondition := "amqp:resource-deleted".
Definition ErrorIllegalState : MessageErrorCondition := "amqp:illegal-state".

Definition lockTokenName : string := "x-opt-lock-token".

(** [NewMessage(data)]: every field but the payload is zero. *)
Definition NewMessage (data : list byte) : Message :=
  {| ContentType := ""; CorrelationID := ""; Data := data; DeliveryCount := 0;
     GroupID := None; GroupSequence := None; ID := ""; Label := "";
     ReplyTo := ""; ReplyToGroupID := ""; To := ""; TTL := None;
     LockToken := None; SystemProps := None; UserProperties := None;
     message := None |}.

(** [[]byte(message)]. *)
Definition bytes_of_string (s : string) : list byte := String.list_byte_of_string s.

Definition NewMessageFromString (s : string) : Message :=
  NewMessage (bytes_of_string s).

(** ** Functions of Go's [strings] package the tag parser calls *)

(** Strings are byte sequences and Go reads them as UTF-8. The patterns
    below are the UTF-8 encodings of the runes of Unicode's White_Space;
    Go's decoder finds such a rune, reading from the front or from the
    back, exactly where one of the patterns matches, and takes a byte that
    is not part of a valid encoding for U+FFFD, which is not white space. *)

Module strings.

(** [strings.Split(s, sep)] for a one-byte separator: one piece more
    than there are separators, so never an empty list. *)
Fixpoint Split (s : string) (sep : ascii) : list string :=
  match s with
  | EmptyString => [EmptyString]
  | String c rest =>
      if decide (c = sep) then EmptyString :: Split rest sep
      else match Split rest sep with
           | piece :: pieces => String c piece :: pieces
           | [] => [String c EmptyString]
           end
  end.

Definition code (c : ascii) : N := N_of_ascii c.

(** The one-byte members of Unicode's White_Space: tab, line feed,
    vertical tab, form feed, carriage return, space. *)
Definition asciiSpace (c : ascii) : bool :=
  let n := code c in
  ((9 <=? n) && (n <=? 13) || (n =? 32))%N.

(** The white-space runes of two bytes, U+0085 and U+00A0: in UTF-8
    [C2 85] and [C2 A0]. *)
Definition space2 (c0 c1 : ascii) : bool :=
  ((code c0 =? 194) && ((code c1 =? 133) || (code c1 =? 160)))%N.

(** The white-space runes of three bytes: U+1680 ([E1 9A 80]),
    U+2000..U+200A, U+2028, U+2029 and U+202F ([E2 80 80] .. [E2 80 8A],
    [E2 80 A8], [E2 80 A9], [E2 80 AF]), U+205F ([E2 81 9F]) and U+3000
    ([E3 80 80]). *)
Definition space3 (c0 c1 c2 : ascii) : bool :=
  ((code c0 =? 225) && (code c1 =? 154) && (code c2 =? 128)
   || (code c0 =? 226) && (code c1 =? 128) &&
      ((128 <=? code c2) && (code c2 <=? 138)
       || (code c2 =? 168) || (code c2 =? 169) || (code c2 =? 175))
   || (code c0 =? 226) && (code c1 =? 129) && (code c2 =? 159)
   || (code c0 =? 227) && (code c1 =? 128) && (code c2 =? 128))%N.

(** Length in bytes of the white-space rune the bytes [l] begin with,
    [0] when they begin with none. *)
Definition spacePrefix (l : list ascii) : nat :=
  match l with
  | [] => 0%nat
  | c0 :: rest =>
      if asciiSpace c0 then 1%nat
      else match rest with
           | [] => 0%nat
           | c1 :: rest' =>
               if space2 c0 c1 then 2%nat
               else match rest' with
                    | [] => 0%nat
                    | c2 :: _ => if space3 c0 c1 c2 then 3%nat else 0%nat
                    end
           end
  end.

(** The same for the rune the bytes end with; [r] holds them last byte
    first. *)
Definition spaceSuffix (r : list ascii) : nat :=
  match r with
  | [] => 0%nat
  | c0 :: rest =>
      if asciiSpace c0 then 1%nat
      else match rest with
           | [] => 0%nat
           | c1 :: rest' =>
               if space2 c1 c0 then 2%nat
               else match rest' with
                    | [] => 0%nat
                    | c2 :: _ => if space3 c2 c1 c0 then 3%nat else 0%nat
                    end
           end
  end.

(** Strip runes off the front for as long as [width] finds one; [fuel]
    bounds their number, and the number of bytes is enough. *)
Fixpoint trimWith (width : list ascii -> nat) (fuel : nat) (l : list ascii)
  : list ascii :=
  match fuel with
  | O => l
  | S fuel' =>
      match width l with
      | O => l
      | S k => trimWith width fuel' (drop (S k) l)
      end
  end.

Definition trimLeft (l : list ascii) : list ascii :=
  trimWith spacePrefix (length l) l.

Definition trimRight (l : list ascii) : list ascii :=
  rev (trimWith spaceSuffix (length l) (rev l)).

(** [strings.TrimSpace(s)]: [s] without its leading and trailing
    white-space runes. *)
Definition TrimSpace (s : string) : string :=
  String.string_of_list_ascii
    (trimRight (trimLeft (String.list_ascii_of_string s))).

End strings.

(** ** The tag parser *)

(** The loop over [split[1:]]. *)
Fixpoint parseTagKeys (keys : list string) (mapTag : mapStructureTag)
  : result mapStructureTag :=
  match keys with
  | [] => Ok mapTag
  | tagKey :: rest =>
      if decide (tagKey = "persistempty")
      then parseTagKeys rest {| Name := Name mapTag; PersistEmpty := true |}
      else Err (KeyNotUnderstood tagKey)
  end.

(** [parseMapStructureTag(tag)]; [Ok None] is the return [nil, nil]. *)
Definition parseMapStructureTag (tag : reflect.StructTag)
  : result (option mapStructureTag) :=
  match reflect.Lookup tag "mapstructure" with
  | None => Ok None
  | Some str =>
      match strings.Split str "," with
      | [] => Panic IndexOutOfRange
      | first :: rest =>
          let mapTag := {| Name := strings.TrimSpace first; PersistEmpty := false |} in
          mapTag' ← parseTagKeys rest mapTag;
          Ok (Some mapTag')
      end
  end.

(** ** The structure projector *)

(** The loop over the fields of [s], with [encoded] the map built so
    far. A field obtained through a pointer to its struct can be set
    exactly when it is exported. *)
Fixpoint encodeFields (fields : list (reflect.StructField * value))
    (encoded : gmap string value) : result (gmap string value) :=
  match fields with
  | [] => Ok encoded
  | (tf, f) :: rest =>
      if reflect.Exported tf then
        tag ← parseMapStructureTag (reflect.Tag tf);
        match tag with
        | None => encodeFields rest encoded
        | Some tag =>
            match f with
            | VPtr None =>
                if PersistEmpty tag
                then encodeFields rest (<[Name tag := VNil]> encoded)
                else encodeFields rest encoded
            | VPtr (Some elem) =>
                encodeFields rest (<[Name tag := elem]> encoded)
            | _ =>
                differs ← differsFromZero f;
                if differs || PersistEmpty tag
                then encodeFields rest (<[Name tag := f]> encoded)
                else encodeFields rest encoded
            end
        end
      else encodeFields rest encoded
  end.

(** [encodeStructureToMap(structPointer)]. [reflect.ValueOf(x).Elem()]
    panics unless [x] is a pointer; on a nil pointer it yields the invalid
    [Value], whose kind is not [Struct]. *)
Definition encodeStructureToMap (structPointer : value)
  : result (gmap string value) :=
  match structPointer with
  | VPtr s =>
      match s with
      | Some (VStruct fields) => encodeFields fields ∅
      | _ => Err MustProvideStruct
      end
  | _ => Panic ElemOfNonPointer
  end.

(** ** The lock-token codec *)

(** The closure [swapIndex] of [lockTokenFromMessageTag]. Both indexes
    are constants below 16 at every call, and [array] is a [[16]byte]. *)
Definition swapIndex (indexOne indexTwo : nat) (array : list byte) : list byte :=
  match array !! indexOne, array !! indexTwo with
  | Some v1, Some v2 => <[indexTwo := v1]> (<[indexOne := v2]> array)
  | _, _ => array
  end.

(** The four swaps, from the .net byte order of a GUID to that of the
    RFC. *)
Definition swapGUIDBytes (lockTokenBytes : list byte) : list byte :=
  swapIndex 6 7 (swapIndex 4 5 (swapIndex 1 2 (swapIndex 0 3 lockTokenBytes))).

Definition lockTokenFromMessageTag (msg : amqp.Message) : result (list byte) :=
  if decide (length (amqp.DeliveryTag msg) ≠ 16%nat)
  then Err (InvalidDeliveryTag (amqp.DeliveryTag msg))
  else Ok (swapGUIDBytes (take 16 (amqp.DeliveryTag msg))).

(** ** The outbound translator *)

(** The reflection view of a [*SystemProperties]: the fields in
    declaration order, each exported, each with its [mapstructure] tag. *)
Definition field (name key : string) (f : value) : reflect.StructField * value :=
  ({| reflect.Name := name; reflect.Exported := true;
      reflect.Tag := [("mapstructure", key)] |}, f).

Definition reflect_SystemProperties (p : SystemProperties) : value :=
  VStruct
    [ field "LockedUntil" "x-opt-locked-until" (VPtr (VTime <$> LockedUntil p));
      field "SequenceNumber" "x-opt-sequence-number"
        (VPtr (VInt Int64 <$> SequenceNumber p));
      field "PartitionID" "x-opt-partition-id" (VPtr (VInt Int16 <$> PartitionID p));
      field "PartitionKey" "x-opt-partition-key" (VPtr (VString <$> PartitionKey p));
      field "EnqueuedTime" "x-opt-enqueued-time" (VPtr (VTime <$> EnqueuedTime p));
      field "DeadLetterSource" "x-opt-deadletter-source"
        (VPtr (VString <$> DeadLetterSource p));
      field "ScheduledEnqueueTime" "x-opt-scheduled-enqueue-time"
        (VPtr (VTime <$> ScheduledEnqueueTime p));
      field "EnqueuedSequenceNumber" "x-opt-enqueue-sequence-number"
        (VPtr (VInt Int64 <$> EnqueuedSequenceNumber p));
      field "ViaPartitionKey" "x-opt-via-partition-key"
        (VPtr (VString <$> ViaPartitionKey p)) ].

(** [annotationsFromMap(m)]: a fresh map with the entries of [m]. *)
Definition annotationsFromMap (m : gmap string value) : gmap string value :=
  map_fold (fun key val (a : gmap string value) => <[key := val]> a) ∅ m.

(** Assignments to one field of the wire message. *)
Definition setProperties (p : amqp.MessageProperties) (w : amqp.Message) :=
  {| amqp.Header := amqp.Header w;
     amqp.DeliveryAnnotations := amqp.DeliveryAnnotations w;
     amqp.Annotations := amqp.Annotations w;
     amqp.Properties := Some p;
     amqp.ApplicationProperties := amqp.ApplicationProperties w;
     amqp.Data := amqp.Data w; amqp.DeliveryTag := amqp.DeliveryTag w |}.

Definition setApplicationProperties (a : gmap string value) (w : amqp.Message) :=
  {| amqp.Header := amqp.Header w;
     amqp.DeliveryAnnotations := amqp.DeliveryAnnotations w;
     amqp.Annotations := amqp.Annotations w;
     amqp.Properties := amqp.Properties w;
     amqp.ApplicationProperties := Some a;
     amqp.Data := amqp.Data w; amqp.DeliveryTag := amqp.DeliveryTag w |}.

Definition setAnnotations (a : gmap string value) (w : amqp.Message) :=
  {| amqp.Header := amqp.Header w;
     amqp.DeliveryAnnotations := amqp.DeliveryAnnotations w;
     amqp.Annotations := Some a;
     amqp.Properties := amqp.Properties w;
     amqp.ApplicationProperties := amqp.ApplicationProperties w;
     amqp.Data := amqp.Data w; amqp.DeliveryTag := amqp.DeliveryTag w |}.

Definition setDeliveryAnnotations (a : gmap string value) (w : amqp.Message) :=
  {| amqp.Header := amqp.Header w;
     amqp.DeliveryAnnotations := Some a;
     amqp.Annotations := amqp.Annotations w;
     amqp.Properties := amqp.Properties w;
     amqp.ApplicationProperties := amqp.ApplicationProperties w;
     amqp.Data := amqp.Data w; amqp.DeliveryTag := amqp.DeliveryTag w |}.

Definition setHeader (h : amqp.MessageHeader) (w : amqp.Message) :=
  {| amqp.Header := Some h;
     amqp.DeliveryAnnotations := amqp.DeliveryAnnotations w;
     amqp.Annotations := amqp.Annotations w;
     amqp.Properties := amqp.Properties w;
     amqp.ApplicationProperties := amqp.ApplicationProperties w;
     amqp.Data := amqp.Data w; amqp.DeliveryTag := amqp.DeliveryTag w |}.

Definition setHeaderTTL (ttl : Z) (h : amqp.MessageHeader) :=
  {| amqp.Durable := amqp.Durable h; amqp.Priority := amqp.Priority h;
     amqp.TTL := ttl; amqp.FirstAcquirer := amqp.FirstAcquirer h;
     amqp.DeliveryCount := amqp.DeliveryCount h |}.

(** [m.toMsg()]. The wire message is the one [m] wraps when there is
    one, and then the assignments below change that very message. *)
Definition toMsg (m : Message) : result amqp.Message :=
  let amqpMsg :=
    match message m with
    | Some wrapped => wrapped
    | None => amqp.NewMessage (Data m)
    end in
  (* the literal with [MessageID], then the two guarded and the six
     unguarded assignments to its fields *)
  let amqpMsg :=
    setProperties
      {| amqp.MessageID := VString (ID m);
         amqp.GroupID := match GroupID m with Some g => g | None => "" end;
         amqp.GroupSequence := match GroupSequence m with Some n => n | None => 0 end;
         amqp.CorrelationID := VString (CorrelationID m);
         amqp.ContentType := ContentType m;
         amqp.Subject := Label m;
         amqp.To := To m;
         amqp.ReplyTo := ReplyTo m;
         amqp.ReplyToGroupID := ReplyToGroupID m |} amqpMsg in
  let amqpMsg :=
    match UserProperties m with
    | Some props =>
        if decide (0 < size props)%nat
        then setApplicationProperties
               (map_fold (fun key val (a : gmap string value) =>
                            <[key := val]> a) ∅ props) amqpMsg
        else amqpMsg
    | None => amqpMsg
    end in
  amqpMsg ←
    match SystemProps m with
    | Some sysProps =>
        sysPropMap ← encodeStructureToMap (VPtr (Some (reflect_SystemProperties sysProps)));
        Ok (setAnnotations (annotationsFromMap sysPropMap) amqpMsg)
    | None => Ok amqpMsg
    end;
  let amqpMsg :=
    match LockToken m with
    | Some token =>
        let annotations :=
          match amqp.DeliveryAnnotations amqpMsg with
          | Some a => a
          | None => (∅ : gmap string value)
          end in
        setDeliveryAnnotations (<[lockTokenName := VUUID token]> annotations) amqpMsg
    | None => amqpMsg
    end in
  let amqpMsg :=
    match TTL m with
    | Some ttl =>
        let header :=
          match amqp.Header amqpMsg with
          | Some h => h
          | None => amqp.zeroMessageHeader
          end in
        setHeader (setHeaderTTL ttl header) amqpMsg
    | None => amqpMsg
    end in
  Ok amqpMsg.

(** ** The inbound translator *)

(** A call that returns a message together with an error that may be
    nil ([Returns msg None]), or panics. [newMessage] hands back the
    message it has built so far next to the error it reports. *)
Inductive returned (A : Type) :=
  | Returns (a : A) (err : option error)
  | Panics (p : panic).
Arguments Returns {A} a err.
Arguments Panics {A} p.

(** [uint32] addition. *)
Definition add_uint32 (a b : Z) : Z := (a + b) mod 2 ^ 32.

Definition setLockToken (token : list byte) (m : Message) : Message :=
  {| ContentType := ContentType m; CorrelationID := CorrelationID m;
     Data := Data m; DeliveryCount := DeliveryCount m; GroupID := GroupID m;
     GroupSequence := GroupSequence m; ID := ID m; Label := Label m;
     ReplyTo := ReplyTo m; ReplyToGroupID := ReplyToGroupID m; To := To m;
     TTL := TTL m; LockToken := Some token; SystemProps := SystemProps m;
     UserProperties := UserProperties m; message := message m |}.

Definition setSystemProps (p : option SystemProperties) (m : Message) : Message :=
  {| ContentType := ContentType m; CorrelationID := CorrelationID m;
     Data := Data m; DeliveryCount := DeliveryCount m; GroupID := GroupID m;
     GroupSequence := GroupSequence m; ID := ID m; Label := Label m;
     ReplyTo := ReplyTo m; ReplyToGroupID := ReplyToGroupID m; To := To m;
     TTL := TTL m; LockToken := LockToken m; SystemProps := p;
     UserProperties := UserProperties m; message := message m |}.

Definition setUserProperties (u : gmap string value) (m : Message) : Message :=
  {| ContentType := ContentType m; CorrelationID := CorrelationID m;
     Data := Data m; DeliveryCount := DeliveryCount m; GroupID := GroupID m;
     GroupSequence := GroupSequence m; ID := ID m; Label := Label m;
     ReplyTo := ReplyTo m; ReplyToGroupID := ReplyToGroupID m; To := To m;
     TTL := TTL m; LockToken := LockToken m; SystemProps := SystemProps m;
     UserProperties := Some u; message := message m |}.

(** The block guarded by [amqpMsg.Properties != nil]: it reads the
    properties and then, through [amqpMsg.Header], the header. *)
Definition readProperties (props : amqp.MessageProperties)
    (header : option amqp.MessageHeader) (msg : Message) : returned Message :=
  let id := match amqp.MessageID props with VString id => id | _ => ID msg end in
  let correlationID :=
    match amqp.CorrelationID props with
    | VString id => id
    | _ => CorrelationID msg
    end in
  match header with
  | None => Panics NilDereference
  | Some header =>
      Returns
        {| ID := id;
           GroupID := Some (amqp.GroupID props);
           GroupSequence := Some (amqp.GroupSequence props);
           CorrelationID := correlationID;
           ContentType := amqp.ContentType props;
           Label := amqp.Subject props;
           To := amqp.To props;
           ReplyTo := amqp.ReplyTo props;
           ReplyToGroupID := amqp.ReplyToGroupID props;
           DeliveryCount := add_uint32 (amqp.DeliveryCount header) 1;
           TTL := Some (amqp.TTL header);
           Data := Data msg; LockToken := LockToken msg;
           SystemProps := SystemProps msg;
           UserProperties := UserProperties msg; message := message msg |}
        None
  end.

Section Inbound.

(** [mapstructure.Decode(annotations, &msg.SystemProperties)] of the
    library [github.com/mitchellh/mapstructure]: the structure it leaves
    behind the pointer and the error it returns. *)
Variable Decode : gmap string value -> option SystemProperties * option error.

Definition newMessage (data : list byte) (amqpMsg : option amqp.Message)
  : returned Message :=
  let msg :=
    {| ContentType := ""; CorrelationID := ""; Data := data; DeliveryCount := 0;
       GroupID := None; GroupSequence := None; ID := ""; Label := "";
       ReplyTo := ""; ReplyToGroupID := ""; To := ""; TTL := None;
       LockToken := None; SystemProps := None; UserProperties := None;
       message := amqpMsg |} in
  match amqpMsg with
  | None => Returns msg None
  | Some w =>
      let afterProperties :=
        match amqp.Properties w with
        | Some props => readProperties props (amqp.Header w) msg
        | None => Returns msg None
        end in
      match afterProperties with
      | Panics p => Panics p
      | Returns msg _ =>
          let msg :=
            match amqp.ApplicationProperties w with
            | Some props =>
                setUserProperties
                  (map_fold (fun key val (u : gmap string value) =>
                               <[key := val]> u) ∅ props) msg
            | None => msg
            end in
          let '(msg, err) :=
            match amqp.Annotations w with
            | Some annotations =>
                let '(sysProps, err) := Decode annotations in
                (setSystemProps sysProps msg, err)
            | None => (msg, None)
            end in
          match err with
          | Some err => Returns msg (Some err)
          | None =>
              if decide (0 < length (amqp.DeliveryTag w))%nat then
                match lockTokenFromMessageTag w with
                | Ok lockToken => Returns (setLockToken lockToken msg) None
                | Err err => Returns msg (Some err)
                | Panic p => Panics p
                end
              else Returns msg None
          end
      end
  end.

(** [messageFromAMQPMessage(msg)]: the argument [msg.Data[0]] is
    evaluated before [newMessage] is entered. *)
Definition messageFromAMQPMessage (msg : option amqp.Message) : returned Message :=
  match msg with
  | None => Panics NilDereference
  | Some w =>
      match amqp.Data w with
      | [] => Panics IndexOutOfRange
      | data :: _ => newMessage data msg
      end
  end.

End Inbound.

(** ** Dispositions *)

(** The settlement calls of the transport: [Accept()],
    [Modify(deliveryFailed, undeliverableHere, annotations)] and
    [Reject(e)]. *)
Inductive settlement :=
  | Accept
  | Modify (deliveryFailed undeliverableHere : bool)
           (annotations : option (gmap string value))
  | Reject (e : amqp.Error).

(** What the transport has been asked so far: the wire messages settled
    and how, oldest first. *)
Definition settled := list (amqp.Message * settlement).

(** A disposition action is run later, against the transport. The
    tracing span it opens and closes around the settlement does not touch
    the message and is not modelled. *)
Definition DispositionAction := settled -> result settled.

(** A method called on the wire message [m.message] refers to. *)
Definition settle (m : Message) (s : settlement) : DispositionAction :=
  fun log =>
    match message m with
    | None => Panic NilDereference
    | Some w => Ok (log ++ [(w, s)])%list
    end.



(** [err] is an interface value: [None] is the nil error, on which
    [err.Error()] panics. *)
Definition DeadLetter (m : Message) (err : option error) : DispositionAction :=
  fun log =>
    match err with
    | None => Panic NilDereference
    | Some e =>
        let amqpErr :=
          {| amqp.Condition := ErrorInternalError;
             amqp.Description := Error e;
             amqp.Info := None |} in
        settle m (Reject amqpErr) log
    end.

(** The map [info] is built when [DeadLetterWithInfo] is called, not
    when the action runs. *)
Definition DeadLetterWithInfo (m : Message) (err : option error)
    (condition : MessageErrorCondition)
    (additionalData : option (gmap string string)) : DispositionAction :=
  let info :=
    match additionalData with
    | Some data =>
        Some (map_fold (fun key val (info : gmap string value) =>
                          <[key := VString val]> info) ∅ data)
    | None => None
    end in
  fun log =>
    match err with
    | None => Panic NilDereference
    | Some e =>
        let amqpErr :=
          {| amqp.Condition := condition;
             amqp.Description := Error e;
             amqp.Info := info |} in
        settle m (Reject amqpErr) log
    end.

(** ** Scheduling *)

(** [m.ScheduleAt(t)]. A [time.Time] is kept as the instant it
    denotes, which [t.UTC()] does not change. *)
Definition ScheduleAt (m : Message) (t : Z) : Message :=
  let sysProps :=
    match SystemProps m with
    | Some p => p
    | None =>
        {| LockedUntil := None; SequenceNumber := None; PartitionID := None;
           PartitionKey := None; EnqueuedTime := None; DeadLetterSource := None;
           ScheduledEnqueueTime := None; EnqueuedSequenceNumber := None;
           ViaPartitionKey := None |}
    end in
  setSystemProps
    (Some {| LockedUntil := LockedUntil sysProps;
             SequenceNumber := SequenceNumber sysProps;
             PartitionID := PartitionID sysProps;
             PartitionKey := PartitionKey sysProps;
             EnqueuedTime := EnqueuedTime sysProps;
             DeadLetterSource := DeadLetterSource sysProps;
             ScheduledEnqueueTime := Some t;
             EnqueuedSequenceNumber := EnqueuedSequenceNumber sysProps;
             ViaPartitionKey := ViaPartitionKey sysProps |}) m.

(** ** The text-map writer and reader *)

Definition Set_ (m : Message) (key val : string) : Message :=
  let props :=
    match UserProperties m with
    | Some props => props
    | None => (∅ : gmap string value)
    end in
  setUserProperties (<[key := VString val]> props) m.

Section ForeachKey.

(** The handler is a Go closure: it may change a state of its own,
    [S], besides returning an error that may be nil. *)
Context {S : Type}.
Variable handler : string -> string -> S -> S * option error.

(** The body of the [range] loop, run over the entries in the order
    the iteration visits them. *)
Fixpoint rangeUserProperties (entries : list (string * value)) (st : S)
  : S * result unit :=
  match entries with
  | [] => (st, Ok tt)
  | (key, val) :: rest =>
      match val with
      | VString s =>
          let '(st', err) := handler key s st in
          match err with
          | Some e => (st', Err e)
          | None => rangeUserProperties rest st'
          end
      | _ => (st, Panic TypeAssertionFailed)
      end
  end.

(** [m.ForeachKey(handler)]. Go leaves the order in which [range]
    visits a map unspecified: every ordering of the entries is a
    possible run. A nil map has no entries. *)
Definition ForeachKey (m : Message) (st : S) (out : S * result unit) : Prop :=
  exists entries : list (string * value),
    entries ≡ₚ map_to_list (default ∅ (UserProperties m)) /\
    rangeUserProperties entries st = out.

End ForeachKey.

(** * Definitions the statements use

    Readings of the specification's words and the sample inputs the
    statements are run on. *)

(** ** The lock-token codec *)

(** The index of the delivery tag whose byte ends at index [i] of the
    identifier: the pairs (0,3), (1,2), (4,5) and (6,7) change places and
    every other index stays. *)
Definition swappedIndex (i : nat) : nat :=
  match i with
  | 0 => 3 | 1 => 2 | 2 => 1 | 3 => 0
  | 4 => 5 | 5 => 4 | 6 => 7 | 7 => 6
  | _ => i
  end%nat.

(** A wire message that carries nothing but a delivery tag. *)
Definition taggedMessage (tag : list byte) : amqp.Message :=
  {| amqp.Header := None; amqp.DeliveryAnnotations := None;
     amqp.Annotations := None; amqp.Properties := None;
     amqp.ApplicationProperties := None; amqp.Data := [];
     amqp.DeliveryTag := tag |}.

Definition sampleTag : list byte :=
  [x00; x01; x02; x03; x04; x05; x06; x07; x08; x09; x0a; x0b; x0c; x0d; x0e; x0f]%byte.

(** ** The tag parser *)

(** [c] is one of the bytes of [s]. *)
Fixpoint occurs (c : ascii) (s : string) : Prop :=
  match s with
  | EmptyString => False
  | String d rest => c = d \/ occurs c rest
  end.

(** A sequence of bytes made of white-space runes only. *)
Inductive spaceRunes : list ascii -> Prop :=
  | spaceRunes_nil : spaceRunes []
  | spaceRunes_1 c l :
      strings.asciiSpace c = true -> spaceRunes l -> spaceRunes (c :: l)
  | spaceRunes_2 c0 c1 l :
      strings.space2 c0 c1 = true -> spaceRunes l -> spaceRunes (c0 :: c1 :: l)
  | spaceRunes_3 c0 c1 c2 l :
      strings.space3 c0 c1 c2 = true -> spaceRunes l ->
      spaceRunes (c0 :: c1 :: c2 :: l).

(** ** The structure projector *)

(** What a tagged field contributes to the projection, in the words of
    the specification: an unset optional gives [key -> null] when
    [PersistEmpty] holds and nothing otherwise, a set optional gives
    [key -> dereferenced value], and a plain value gives [key -> value] when
    it differs from the zero value of its type or [PersistEmpty] holds. *)
Definition taggedEntry (tag : mapStructureTag) (f : value) : option (string * value) :=
  match f with
  | VPtr None => if PersistEmpty tag then Some (Name tag, VNil) else None
  | VPtr (Some elem) => Some (Name tag, elem)
  | _ =>
      if bool_decide (f <> zero_of f) || PersistEmpty tag
      then Some (Name tag, f) else None
  end.

(** What a field contributes: nothing when it cannot be set or bears no
    [mapstructure] tag, and the entry of its parsed tag otherwise. *)
Definition fieldEntry (fld : reflect.StructField * value) : option (string * value) :=
  if reflect.Exported fld.1 then
    match parseMapStructureTag (reflect.Tag fld.1) with
    | Ok (Some tag) => taggedEntry tag fld.2
    | _ => None
    end
  else None.

(** A field the projector gets through: one it skips because it cannot
    be set, or one whose tag parses and whose value, when the tag is
    present, is of a type Go can compare. *)
Definition projectable (fld : reflect.StructField * value) : bool :=
  negb (reflect.Exported fld.1) ||
  match parseMapStructureTag (reflect.Tag fld.1) with
  | Ok None => true
  | Ok (Some _) => comparable fld.2
  | _ => false
  end.

(** The entries put into a map one after the other, a later entry
    replacing an earlier one under the same key. *)
Definition putAll (entries : list (string * value)) (encoded : gmap string value)
  : gmap string value :=
  foldl (fun m kv => <[kv.1 := kv.2]> m) encoded entries.

Definition projection (fields : list (reflect.StructField * value)) : gmap string value :=
  putAll (omap fieldEntry fields) ∅.

(** A struct with one field that is tagged, holds a non-zero plain value
    and is not exported. *)
Definition unexportedSample : value :=
  VStruct [ ({| reflect.Name := "sequence"; reflect.Exported := false;
                reflect.Tag := [("mapstructure", "x-opt-sequence-number")] |},
             VInt Int64 7) ].

(** Fields of every kind the projector tells apart. *)
Definition projectorSample : list (reflect.StructField * value) :=
    [ ({| reflect.Name := "Untagged"; reflect.Exported := true; reflect.Tag := [] |},
       VInt Int64 1);
      field "NilDropped" "nil-dropped" (VPtr None);
      ({| reflect.Name := "NilKept"; reflect.Exported := true;
          reflect.Tag := [("mapstructure", "nil-kept,persistempty")] |}, VPtr None);
      field "Set" "set" (VPtr (Some (VString "a")));
      field "Zero" "zero" (VInt Int64 0);
      ({| reflect.Name := "ZeroKept"; reflect.Exported := true;
          reflect.Tag := [("mapstructure", "zero-kept,persistempty")] |}, VInt Int64 0);
      field "NonZero" "non-zero" (VInt Int64 5);
      field "Again" "set" (VPtr (Some (VString "b"))) ].

(** ** The inbound translator *)

(** What the inbound translator takes from a properties block and a
    header block. *)
Definition readsBlocks (props : amqp.MessageProperties) (header : amqp.MessageHeader)
    (msg : Message) : Prop :=
  ID msg = (if amqp.MessageID props is VString id then id else "") /\
  CorrelationID msg = (if amqp.CorrelationID props is VString id then id else "") /\
  GroupID msg = Some (amqp.GroupID props) /\
  GroupSequence msg = Some (amqp.GroupSequence props) /\
  ContentType msg = amqp.ContentType props /\
  Label msg = amqp.Subject props /\
  To msg = amqp.To props /\
  ReplyTo msg = amqp.ReplyTo props /\
  ReplyToGroupID msg = amqp.ReplyToGroupID props /\
  DeliveryCount msg = add_uint32 (amqp.DeliveryCount header) 1 /\
  TTL msg = Some (amqp.TTL header).

(** What the message holds when there was no properties block to read. *)
Definition readsNoBlocks (msg : Message) : Prop :=
  ID msg = "" /\ CorrelationID msg = "" /\ GroupID msg = None /\
  GroupSequence msg = None /\ ContentType msg = "" /\ Label msg = "" /\
  To msg = "" /\ ReplyTo msg = "" /\ ReplyToGroupID msg = "" /\
  DeliveryCount msg = 0 /\ TTL msg = None.

(** A decoder for the sample runs: it finds no system property and
    reports no error. *)
Definition decodeNothing (annotations : gmap string value)
  : option SystemProperties * option error :=
  (Some {| LockedUntil := None; SequenceNumber := None; PartitionID := None;
           PartitionKey := None; EnqueuedTime := None; DeadLetterSource := None;
           ScheduledEnqueueTime := None; EnqueuedSequenceNumber := None;
           ViaPartitionKey := None |}, None).

Definition sampleProperties : amqp.MessageProperties :=
  {| amqp.MessageID := VString "id-1"; amqp.To := ""; amqp.Subject := "order";
     amqp.ReplyTo := ""; amqp.CorrelationID := VNil; amqp.ContentType := "text/plain";
     amqp.GroupID := ""; amqp.GroupSequence := 0; amqp.ReplyToGroupID := "" |}.

Definition headerWithCount (count : Z) : amqp.MessageHeader :=
  {| amqp.Durable := false; amqp.Priority := 0; amqp.TTL := 0;
     amqp.FirstAcquirer := false; amqp.DeliveryCount := count |}.

(** A received wire message: one data section, a properties block, and
    the header block given. *)
Definition receivedMessage (header : option amqp.MessageHeader) : amqp.Message :=
  {| amqp.Header := header; amqp.DeliveryAnnotations := None;
     amqp.Annotations := None; amqp.Properties := Some sampleProperties;
     amqp.ApplicationProperties := None;
     amqp.Data := [bytes_of_string "payload"]; amqp.DeliveryTag := [] |}.

(** A wire message with no data section and no block at all. *)
Definition emptyMessage : amqp.Message := taggedMessage [].

(** ** The outbound translator *)

(** The fields reflection finds in a [SystemProperties]. *)
Definition systemFields (p : SystemProperties) : list (reflect.StructField * value) :=
  match reflect_SystemProperties p with
  | VStruct fields => fields
  | _ => []
  end.

(** The wire message [toMsg] fills in: the one the message wraps, or a
    new one around its payload. *)
Definition wireBase (m : Message) : amqp.Message :=
  match message m with
  | Some wrapped => wrapped
  | None => amqp.NewMessage (Data m)
  end.

(** A message built by the application: a payload, a content type and a
    label, and no time-to-live. *)
Definition plainMessage : Message :=
  {| ContentType := "text/plain"; CorrelationID := ""; Data := bytes_of_string "hi";
     DeliveryCount := 0; GroupID := None; GroupSequence := None; ID := "id-1";
     Label := "greeting"; ReplyTo := ""; ReplyToGroupID := ""; To := "";
     TTL := None; LockToken := None; SystemProps := None; UserProperties := None;
     message := None |}.

(** The same message with a time-to-live and two user properties. *)
Definition timedMessage : Message :=
  {| ContentType := "text/plain"; CorrelationID := "c-7"; Data := bytes_of_string "hi";
     DeliveryCount := 0; GroupID := None; GroupSequence := None; ID := "id-1";
     Label := "greeting"; ReplyTo := "replies"; ReplyToGroupID := "g"; To := "orders";
     TTL := Some 30; LockToken := None; SystemProps := None;
     UserProperties := Some (<["a" := VString "1"]> (<["b" := VInt Int64 2]> ∅));
     message := None |}.

(** ** Dispositions and the text-map reader *)

(** The info map of a rejection: the given keys, each bound to the
    given string as an [interface{}] value. *)
Definition infoOf (data : gmap string string) : gmap string value :=
  VString <$> data.

(** A message received from the broker: it wraps its wire message. *)
Definition deliveredMessage : Message :=
  {| ContentType := "text/plain"; CorrelationID := ""; Data := bytes_of_string "payload";
     DeliveryCount := 1; GroupID := Some ""; GroupSequence := Some 0; ID := "id-1";
     Label := "order"; ReplyTo := ""; ReplyToGroupID := ""; To := "";
     TTL := Some 0; LockToken := None; SystemProps := None; UserProperties := None;
     message := Some (receivedMessage (Some (headerWithCount 0))) |}.

(** A message whose only user property is the number 5. *)
Definition numberedMessage : Message :=
  {| ContentType := ""; CorrelationID := ""; Data := []; DeliveryCount := 0;
     GroupID := None; GroupSequence := None; ID := ""; Label := ""; ReplyTo := "";
     ReplyToGroupID := ""; To := ""; TTL := None; LockToken := None;
     SystemProps := None; UserProperties := Some {[ "attempt" := VInt Int64 5 ]};
     message := None |}.

(** A message with one user property, a string. *)
Definition tracedMessage : Message :=
  {| ContentType := ""; CorrelationID := ""; Data := []; DeliveryCount := 0;
     GroupID := None; GroupSequence := None; ID := ""; Label := ""; ReplyTo := "";
     ReplyToGroupID := ""; To := ""; TTL := None; LockToken := None;
     SystemProps := None; UserProperties := Some {[ "trace-id" := VString "abc" ]};
     message := None |}.

(** A handler that counts its calls and never fails. *)
Definition countingHandler (key val : string) (calls : nat) : nat * option error :=
  (Datatypes.S calls, None).

(** ** The wire annotations of the system properties *)

(** The annotation key each field of [SystemProperties] is tagged with,
    next to the value the field holds when it is set. *)
Definition systemAnnotations (p : SystemProperties) : list (string * option value) :=
  [ ("x-opt-locked-until", VTime <$> LockedUntil p);
    ("x-opt-sequence-number", VInt Int64 <$> SequenceNumber p);
    ("x-opt-partition-id", VInt Int16 <$> PartitionID p);
    ("x-opt-partition-key", VString <$> PartitionKey p);
    ("x-opt-enqueued-time", VTime <$> EnqueuedTime p);
    ("x-opt-deadletter-source", VString <$> DeadLetterSource p);
    ("x-opt-scheduled-enqueue-time", VTime <$> ScheduledEnqueueTime p);
    ("x-opt-enqueue-sequence-number", VInt Int64 <$> EnqueuedSequenceNumber p);
    ("x-opt-via-partition-key", VString <$> ViaPartitionKey p) ].

(** The value a table of keys holds under [key]: that of the first row
    with the key, nothing when the row is unset or there is none. *)
Fixpoint annotationOf (key : string) (table : list (string * option value))
  : option value :=
  match table with
  | [] => None
  | (k, o) :: rest => if decide (k = key) then o else annotationOf key rest
  end.

(** The rows of a table that are set, as map entries. *)
Definition setRows (table : list (string * option value)) : list (string * value) :=
  omap (fun row => pair row.1 <$> row.2) table.

(** System properties with a sequence number and a partition key. *)
Definition sampleSystemProperties : SystemProperties :=
  {| LockedUntil := None; SequenceNumber := Some 42; PartitionID := None;
     PartitionKey := Some "p-1"; EnqueuedTime := None; DeadLetterSource := None;
     ScheduledEnqueueTime := None; EnqueuedSequenceNumber := None;
     ViaPartitionKey := None |}.

(** A message to send that bears those system properties. *)
Definition annotatedMessage : Message :=
  {| ContentType := ""; CorrelationID := ""; Data := bytes_of_string "hi";
     DeliveryCount := 0; GroupID := None; GroupSequence := None; ID := "";
     Label := ""; ReplyTo := ""; ReplyToGroupID := ""; To := ""; TTL := None;
     LockToken := None; SystemProps := Some sampleSystemProperties;
     UserProperties := None; message := None |}.

(** A received message with entries of its own in every map, and the
    message the inbound translator would wrap around it, changed by the
    application: no time-to-live, no user properties, no system
    properties, no lock token. *)
Definition loadedWire : amqp.Message :=
  {| amqp.Header := Some (headerWithCount 3);
     amqp.DeliveryAnnotations := Some {[ "x-opt-seen" := VBool true ]};
     amqp.Annotations := Some {[ "x-opt-sequence-number" := VInt Int64 9 ]};
     amqp.Properties := Some sampleProperties;
     amqp.ApplicationProperties := Some {[ "trace-id" := VString "abc" ]};
     amqp.Data := [bytes_of_string "payload"];
     amqp.DeliveryTag := sampleTag |}.

Definition strippedMessage : Message :=
  {| ContentType := "text/plain"; CorrelationID := ""; Data := bytes_of_string "payload";
     DeliveryCount := 4; GroupID := None; GroupSequence := None; ID := "id-1";
     Label := "order"; ReplyTo := ""; ReplyToGroupID := ""; To := "";
     TTL := None; LockToken := None; SystemProps := None;
     UserProperties := Some ∅; message := Some loadedWire |}.

(** The same message with a lock token. *)
Definition lockedMessage : Message :=
  setLockToken (swapGUIDBytes sampleTag) strippedMessage.



(** A decoder that always fails. *)
Definition decodeFails (annotations : gmap string value)
  : option SystemProperties * option error :=
  (None, Some (ForeignError "cannot decode")).

(** ** The text-map writer and the tracer's view *)

(** Every value of the map is a string. *)
Definition allStrings (props : gmap string value) : Prop :=
  forall key val, props !! key = Some val -> exists s, val = VString s.

(** A handler that keeps the pairs it is shown, in order, and never
    fails. *)
Definition recordingHandler (key val : string) (seen : list (string * string))
  : list (string * string) * option error :=
  ((seen ++ [(key, val)])%list, None).

(** A pair of strings as the map entry [Set] makes of it. *)
Definition asEntry (kv : string * string) : string * value := (kv.1, VString kv.2).

(** ** Byte order *)

(** The number a sequence of bytes spells, most significant byte first,
    and least significant byte first. *)
Definition bigEndian (bs : list byte) : Z :=
  foldl (fun acc b => acc * 256 + Z.of_N (Byte.to_N b)) 0 bs.

Definition littleEndian (bs : list byte) : Z := bigEndian (rev bs).

(** ** Failures of the projector *)

(** A struct whose second field has a tag with an unknown option. *)
Definition oddTagSample : list (reflect.StructField * value) :=
  [ field "Kept" "kept" (VInt Int64 1);
    ({| reflect.Name := "Odd"; reflect.Exported := true;
        reflect.Tag := [("mapstructure", "odd,omitempty")] |}, VInt Int64 2);
    field "Never" "never" (VInt Int64 3) ].

(** A struct whose second field is a tagged slice. *)
Definition sliceSample : list (reflect.StructField * value) :=
  [ field "Kept" "kept" (VInt Int64 1);
    ({| reflect.Name := "Body"; reflect.Exported := true;
        reflect.Tag := [("mapstructure", "body,persistempty")] |},
     VBytes [x01%byte]) ].

(** * Properties *)

Local Open Scope list_scope.

(** ** The lock-token codec *)

Lemma length_16_inv {A} (l : list A) :
  length l = 16%nat ->
  exists b0 b1 b2 b3 b4 b5 b6 b7 b8 b9 b10 b11 b12 b13 b14 b15,
    l = [b0; b1; b2; b3; b4; b5; b6; b7; b8; b9; b10; b11; b12; b13; b14; b15].
Proof.
  intros H.
  do 16 (destruct l as [|? l]; [discriminate H|]).
  destruct l; [|discriminate H].
  by repeat eexists.
Qed.

(** Name the bytes of an array known to hold 16 of them. *)
Ltac name_bytes array H :=
  destruct (length_16_inv array H) as (?&?&?&?&?&?&?&?&?&?&?&?&?&?&?&?&->).

Lemma swapGUIDBytes_bytes (b0 b1 b2 b3 b4 b5 b6 b7 b8 b9 b10 b11 b12 b13 b14 b15 : byte) :
  swapGUIDBytes [b0; b1; b2; b3; b4; b5; b6; b7; b8; b9; b10; b11; b12; b13; b14; b15]
  = [b3; b2; b1; b0; b5; b4; b7; b6; b8; b9; b10; b11; b12; b13; b14; b15].
Proof. reflexivity. Qed.

Lemma swapGUIDBytes_length (array : list byte) :
  length array = 16%nat -> length (swapGUIDBytes array) = 16%nat.
Proof.
  intros H. name_bytes array H.
  reflexivity.
Qed.

Lemma swapGUIDBytes_lookup (array : list byte) (i : nat) :
  length array = 16%nat -> swapGUIDBytes array !! i = array !! swappedIndex i.
Proof.
  intros H. name_bytes array H.
  rewrite swapGUIDBytes_bytes.
  do 16 (destruct i as [|i]; [reflexivity|]). reflexivity.
Qed.

(** C1. On a delivery tag of exactly 16 bytes [lockTokenFromMessageTag]
    returns a 16-byte identifier whose byte at every index [i] is the
    tag's byte at [swappedIndex i], so the pairs (0,3), (1,2), (4,5), (6,7)
    are exchanged and bytes 8 to 15 are copied as they are; on a tag of any
    other length (0, 1, 15 and 17 among them) it returns no identifier but
    the invalid-delivery-tag error. *)
Theorem lockTokenFromMessageTag_spec (msg : amqp.Message) :
  (length (amqp.DeliveryTag msg) = 16%nat ->
     exists lockToken,
       lockTokenFromMessageTag msg = Ok lockToken /\
       length lockToken = 16%nat /\
       forall i, lockToken !! i = amqp.DeliveryTag msg !! swappedIndex i) /\
  (length (amqp.DeliveryTag msg) <> 16%nat ->
     lockTokenFromMessageTag msg = Err (InvalidDeliveryTag (amqp.DeliveryTag msg))).
Proof.
  unfold lockTokenFromMessageTag. split; intros H.
  - rewrite decide_False by (intros Hne; exact (Hne H)).
    rewrite firstn_all2 by (rewrite H; reflexivity).
    eexists; split; [reflexivity|]. split.
    + by apply swapGUIDBytes_length.
    + intros i. by apply swapGUIDBytes_lookup.
  - by rewrite decide_True.
Qed.

Lemma lockTokenFromMessageTag_spec_witness :
  (exists lockToken,
     lockTokenFromMessageTag (taggedMessage sampleTag) = Ok lockToken /\
     length lockToken = 16%nat /\
     forall i, lockToken !! i = sampleTag !! swappedIndex i) /\
  lockTokenFromMessageTag (taggedMessage []) = Err (InvalidDeliveryTag []) /\
  lockTokenFromMessageTag (taggedMessage [xff%byte]) = Err (InvalidDeliveryTag [xff%byte]) /\
  lockTokenFromMessageTag (taggedMessage (take 15 sampleTag))
    = Err (InvalidDeliveryTag (take 15 sampleTag)) /\
  lockTokenFromMessageTag (taggedMessage (sampleTag ++ [x10%byte])%list)
    = Err (InvalidDeliveryTag (sampleTag ++ [x10%byte])%list).
Proof.
  split; [|split; [|split; [|split]]].
  - apply (proj1 (lockTokenFromMessageTag_spec (taggedMessage sampleTag))). reflexivity.
  - apply (proj2 (lockTokenFromMessageTag_spec (taggedMessage []))). simpl. lia.
  - apply (proj2 (lockTokenFromMessageTag_spec (taggedMessage [xff%byte]))). simpl. lia.
  - apply (proj2 (lockTokenFromMessageTag_spec (taggedMessage (take 15 sampleTag)))).
    simpl. lia.
  - apply (proj2 (lockTokenFromMessageTag_spec
                    (taggedMessage (sampleTag ++ [x10%byte])%list))).
    simpl. lia.
Defined.

(** C6. The four swaps undo themselves: applied to its own output the
    transform gives back the 16 bytes it started from. *)
Theorem swapGUIDBytes_involutive (array : list byte) :
  length array = 16%nat -> swapGUIDBytes (swapGUIDBytes array) = array.
Proof.
  intros H. name_bytes array H.
  by rewrite !swapGUIDBytes_bytes.
Qed.

Lemma swapGUIDBytes_involutive_witness :
  swapGUIDBytes (swapGUIDBytes sampleTag) = sampleTag.
Proof. apply swapGUIDBytes_involutive. reflexivity. Defined.

(** The codec run on its own output gives back the delivery tag. *)
Lemma lockTokenFromMessageTag_twice (tag lockToken : list byte) :
  lockTokenFromMessageTag (taggedMessage tag) = Ok lockToken ->
  lockTokenFromMessageTag (taggedMessage lockToken) = Ok tag.
Proof.
  unfold lockTokenFromMessageTag. simpl.
  destruct (decide (length tag ≠ 16%nat)) as [|Hlen]; [discriminate|].
  apply dec_stable in Hlen.
  name_bytes tag Hlen.
  by intros [= <-].
Qed.

Lemma lockTokenFromMessageTag_twice_witness :
  lockTokenFromMessageTag (taggedMessage (swapGUIDBytes sampleTag)) = Ok sampleTag.
Proof. apply (lockTokenFromMessageTag_twice sampleTag). reflexivity. Defined.

(** ** The tag parser *)

Lemma Split_nonempty (s : string) (sep : ascii) : strings.Split s sep <> [].
Proof.
  destruct s as [|c s]; simpl; [discriminate|].
  destruct (decide (c = sep)); [discriminate|].
  destruct (strings.Split s sep); discriminate.
Qed.

(** Joining the pieces of [Split] with the separator gives the string
    back, and no piece holds the separator: the pieces are the
    separator-delimited tokens of the string. *)
Lemma Split_join (s : string) (sep : ascii) :
  String.concat (String sep EmptyString) (strings.Split s sep) = s.
Proof.
  induction s as [|c s IH]; simpl; [reflexivity|].
  destruct (decide (c = sep)) as [->|Hne].
  - pose proof (Split_nonempty s sep) as Hs.
    simpl. destruct (strings.Split s sep) as [|p ps] eqn:E; [done|].
    simpl in *. by rewrite IH.
  - destruct (strings.Split s sep) as [|p ps] eqn:E.
    + by apply Split_nonempty in E.
    + simpl in *. destruct ps; simpl in *; by rewrite <- IH.
Qed.

Lemma Split_pieces (s : string) (sep : ascii) :
  Forall (fun piece => ~ occurs sep piece) (strings.Split s sep).
Proof.
  induction s as [|c s IH]; simpl.
  - constructor; [tauto|constructor].
  - destruct (decide (c = sep)) as [->|Hne].
    + constructor; [simpl; tauto|exact IH].
    + destruct (strings.Split s sep) as [|p ps] eqn:E; [by apply Split_nonempty in E|].
      inversion IH as [|? ? Hp Hps]; subst.
      constructor; [|exact Hps]. simpl. intros [->|H]; [by apply Hne|by apply Hp].
Qed.

(** *** [strings.TrimSpace] *)

Lemma spaceRunes_app (l1 l2 : list ascii) :
  spaceRunes l1 -> spaceRunes l2 -> spaceRunes (l1 ++ l2).
Proof. induction 1; intros; simpl; [done|by constructor; auto..]. Qed.

Lemma spacePrefix_le (l : list ascii) : (strings.spacePrefix l <= length l)%nat.
Proof.
  destruct l as [|c0 [|c1 [|c2 l]]]; simpl; repeat case_match; lia.
Qed.

Lemma spaceSuffix_le (r : list ascii) : (strings.spaceSuffix r <= length r)%nat.
Proof.
  destruct r as [|c0 [|c1 [|c2 r]]]; simpl; repeat case_match; lia.
Qed.

(** What [spacePrefix] finds is one white-space rune at the front. *)
Lemma spacePrefix_rune (l : list ascii) (k : nat) :
  strings.spacePrefix l = S k ->
  spaceRunes (take (S k) l) /\ length (take (S k) l) = S k.
Proof.
  destruct l as [|c0 [|c1 [|c2 l]]]; simpl; repeat case_match; intros [= <-];
    simpl; (split; [|done]);
    first [ by apply spaceRunes_1; [|constructor]
          | by apply spaceRunes_2; [|constructor]
          | by apply spaceRunes_3; [|constructor] ].
Qed.

(** What [spaceSuffix] finds is one white-space rune at the end. *)
Lemma spaceSuffix_rune (r : list ascii) (k : nat) :
  strings.spaceSuffix r = S k ->
  spaceRunes (rev (take (S k) r)) /\ length (take (S k) r) = S k.
Proof.
  destruct r as [|c0 [|c1 [|c2 r]]]; simpl; repeat case_match; intros [= <-];
    simpl; (split; [|done]);
    first [ by apply spaceRunes_1; [|constructor]
          | by apply spaceRunes_2; [|constructor]
          | by apply spaceRunes_3; [|constructor] ].
Qed.

(** A front that begins with no white-space rune still begins with none
    when bytes are taken off its end. *)
Lemma spacePrefix_app_0 (l post : list ascii) :
  strings.spacePrefix (l ++ post) = 0%nat -> strings.spacePrefix l = 0%nat.
Proof.
  destruct l as [|c0 [|c1 [|c2 l]]]; simpl; [done|..];
    repeat case_match; simplify_eq; try done.
Qed.

Section TrimWith.

Variable width : list ascii -> nat.
Hypothesis width_le : forall l, (width l <= length l)%nat.

(** With as much fuel as there are bytes, [trimWith] stops only where
    [width] finds no rune. *)
Lemma trimWith_done (fuel : nat) (l : list ascii) :
  (length l <= fuel)%nat -> width (strings.trimWith width fuel l) = 0%nat.
Proof.
  revert l. induction fuel as [|fuel IH]; intros l Hlen; simpl.
  - pose proof (width_le l). lia.
  - destruct (width l) as [|k] eqn:E; [done|].
    apply IH. rewrite length_drop. lia.
Qed.

(** What [trimWith] strips is a front of the bytes made of the runes
    [width] found. *)
Lemma trimWith_front (P : list ascii -> Prop) (fuel : nat) (l : list ascii) :
  P [] ->
  (forall l k, width l = S k -> P (take (S k) l)) ->
  (forall l1 l2, P l1 -> P l2 -> P (l1 ++ l2)) ->
  exists front, l = front ++ strings.trimWith width fuel l /\ P front.
Proof.
  intros Hnil Hrune Happ. revert l.
  induction fuel as [|fuel IH]; intros l; simpl; [by exists []|].
  destruct (width l) as [|k] eqn:E; [by exists []|].
  destruct (IH (drop (S k) l)) as (front & Heq & Hfront).
  exists (take (S k) l ++ front). split.
  - rewrite <- app_assoc, <- Heq. by rewrite take_drop.
  - apply Happ; [by apply Hrune|done].
Qed.

End TrimWith.

(** [TrimSpace s] is [s] without a front and an end that are made of
    white-space runes, and it neither begins nor ends with such a rune. *)
Lemma TrimSpace_spec (s : string) :
  exists front back,
    String.list_ascii_of_string s
    = front ++ String.list_ascii_of_string (strings.TrimSpace s) ++ back /\
    spaceRunes front /\ spaceRunes back /\
    strings.spacePrefix (String.list_ascii_of_string (strings.TrimSpace s)) = 0%nat /\
    strings.spaceSuffix (rev (String.list_ascii_of_string (strings.TrimSpace s))) = 0%nat.
Proof.
  unfold strings.TrimSpace. rewrite String.list_ascii_of_string_of_list_ascii.
  set (l := String.list_ascii_of_string s).
  unfold strings.trimLeft, strings.trimRight.
  destruct (trimWith_front strings.spacePrefix spaceRunes (length l) l)
    as (front & Hl & Hfront);
    [constructor|intros l' k H; by apply spacePrefix_rune|apply spaceRunes_app|].
  pose proof (trimWith_done strings.spacePrefix spacePrefix_le (length l) l
                (Nat.le_refl _)) as Hleft.
  set (t := strings.trimWith strings.spacePrefix (length l) l) in *.
  destruct (trimWith_front strings.spaceSuffix (fun q => spaceRunes (rev q))
              (length t) (rev t)) as (q & Ht & Hq).
  { constructor. }
  { intros l' k H. by apply spaceSuffix_rune. }
  { intros l1 l2 H1 H2. rewrite rev_app_distr. by apply spaceRunes_app. }
  pose proof (trimWith_done strings.spaceSuffix spaceSuffix_le (length t) (rev t))
    as Hright.
  rewrite length_rev in Hright. specialize (Hright (Nat.le_refl _)).
  set (x := strings.trimWith strings.spaceSuffix (length t) (rev t)) in *.
  assert (t = rev x ++ rev q) as Ht'.
  { rewrite <- rev_app_distr, <- Ht. by rewrite rev_involutive. }
  exists front, (rev q). split; [by rewrite <- Ht'|].
  split; [done|]. split; [done|]. split.
  - apply (spacePrefix_app_0 _ (rev q)). by rewrite <- Ht'.
  - by rewrite rev_involutive.
Qed.

Lemma parseTagKeys_persistempty (keys : list string) (mapTag : mapStructureTag) :
  Forall (eq "persistempty") keys ->
  parseTagKeys keys mapTag
  = Ok {| Name := Name mapTag;
          PersistEmpty := if keys is [] then PersistEmpty mapTag else true |}.
Proof.
  intros H. revert mapTag. induction H as [|key keys <- _ IH]; intros mapTag.
  - by destruct mapTag.
  - simpl. rewrite IH. simpl. by destruct keys.
Qed.

Lemma parseTagKeys_unknown (accepted others : list string) (tagKey : string)
    (mapTag : mapStructureTag) :
  Forall (eq "persistempty") accepted ->
  tagKey <> "persistempty" ->
  parseTagKeys (accepted ++ tagKey :: others) mapTag = Err (KeyNotUnderstood tagKey).
Proof.
  intros H Hne. revert mapTag. induction H as [|key keys <- _ IH]; intros mapTag; simpl.
  - by rewrite decide_False.
  - apply IH.
Qed.

(** A list of flags is all [persistempty], or has a first flag that is
    not. *)
Lemma flags_cases (keys : list string) :
  Forall (eq "persistempty") keys \/
  exists accepted tagKey others,
    keys = (accepted ++ tagKey :: others)%list /\
    Forall (eq "persistempty") accepted /\ tagKey <> "persistempty".
Proof.
  induction keys as [|key keys IH]; [by left|].
  destruct (decide (key = "persistempty")) as [->|Hne].
  - destruct IH as [IH|(acc & k & oth & -> & Hacc & Hk)].
    + left. by constructor.
    + right. exists ("persistempty" :: acc), k, oth. repeat split; [|done]. by constructor.
  - right. exists [], key, keys. by repeat split.
Qed.

Lemma elem_of_persistempty (keys : list string) :
  Forall (eq "persistempty") keys ->
  bool_decide ("persistempty" ∈ keys) = (if keys is [] then false else true).
Proof.
  intros H. destruct H as [|key keys <- _].
  - apply bool_decide_eq_false. by intros ?%elem_of_nil.
  - apply bool_decide_eq_true. by left.
Qed.

(** C7. A tag without the [mapstructure] annotation parses to the
    not-present result with no error. Otherwise the annotation splits at
    its commas into a first token and the flags after it: when every flag
    is [persistempty] the result is [{Name, PersistEmpty}] with [Name] the
    first token trimmed of surrounding white space and [PersistEmpty] true
    exactly when some flag is [persistempty]; and a flag that is anything
    else, the flags before it being [persistempty], makes the parse fail
    with an error naming that flag. One of the two cases always applies. *)
Theorem parseMapStructureTag_spec (tag : reflect.StructTag) :
  (reflect.Lookup tag "mapstructure" = None ->
     parseMapStructureTag tag = Ok None) /\
  (forall str, reflect.Lookup tag "mapstructure" = Some str ->
     exists first flags,
       strings.Split str "," = first :: flags /\
       (Forall (eq "persistempty") flags ->
          parseMapStructureTag tag
          = Ok (Some {| Name := strings.TrimSpace first;
                        PersistEmpty := bool_decide ("persistempty" ∈ flags) |})) /\
       (forall accepted tagKey others,
          flags = (accepted ++ tagKey :: others)%list ->
          Forall (eq "persistempty") accepted ->
          tagKey <> "persistempty" ->
          parseMapStructureTag tag = Err (KeyNotUnderstood tagKey)) /\
       (Forall (eq "persistempty") flags \/
        exists accepted tagKey others,
          flags = (accepted ++ tagKey :: others)%list /\
          Forall (eq "persistempty") accepted /\ tagKey <> "persistempty")).
Proof.
  unfold parseMapStructureTag. split.
  - by intros ->.
  - intros str ->.
    destruct (strings.Split str ",") as [|first flags] eqn:E;
      [by apply Split_nonempty in E|].
    exists first, flags. split; [done|]. split; [|split].
    + intros H. rewrite parseTagKeys_persistempty by done. simpl.
      by rewrite elem_of_persistempty.
    + intros accepted tagKey others -> Hacc Hne.
      by rewrite parseTagKeys_unknown.
    + apply flags_cases.
Qed.

Lemma parseMapStructureTag_spec_witness :
  parseMapStructureTag [("json", "id")] = Ok None /\
  parseMapStructureTag [("json", "id"); ("mapstructure", " x-opt-partition-key ,persistempty")]
  = Ok (Some {| Name := "x-opt-partition-key"; PersistEmpty := true |}) /\
  parseMapStructureTag [("mapstructure", "x-opt-partition-key")]
  = Ok (Some {| Name := "x-opt-partition-key"; PersistEmpty := false |}) /\
  parseMapStructureTag [("mapstructure", "key,persistempty,omitempty,squash")]
  = Err (KeyNotUnderstood "omitempty").
Proof.
  split; [|split; [|split]].
  - apply (proj1 (parseMapStructureTag_spec [("json", "id")])). reflexivity.
  - destruct (proj2 (parseMapStructureTag_spec
        [("json", "id"); ("mapstructure", " x-opt-partition-key ,persistempty")])
        _ eq_refl) as (first & flags & E & H & _).
    injection E as <- <-. rewrite H; [reflexivity|]. repeat constructor.
  - destruct (proj2 (parseMapStructureTag_spec
        [("mapstructure", "x-opt-partition-key")]) _ eq_refl)
      as (first & flags & E & H & _).
    injection E as <- <-. rewrite H; [reflexivity|]. constructor.
  - destruct (proj2 (parseMapStructureTag_spec
        [("mapstructure", "key,persistempty,omitempty,squash")]) _ eq_refl)
      as (first & flags & E & _ & H & _).
    injection E as <- <-.
    apply (H ["persistempty"] "omitempty" ["squash"]);
      [reflexivity|repeat constructor|discriminate].
Defined.

(** ** The structure projector *)

Lemma putAll_lookup_inv (entries : list (string * value)) (encoded : gmap string value)
    (k : string) (v : value) :
  putAll entries encoded !! k = Some v ->
  encoded !! k = Some v \/ (k, v) ∈ entries.
Proof.
  unfold putAll. revert encoded.
  induction entries as [|[k' v'] entries IH]; intros encoded; simpl; [by left|].
  intros [H|H]%IH.
  - destruct (decide (k' = k)) as [->|Hne].
    + rewrite lookup_insert_eq in H. injection H as ->. right. by left.
    + rewrite lookup_insert_ne in H by done. by left.
  - right. by right.
Qed.

Lemma putAll_lookup_other (entries : list (string * value)) (encoded : gmap string value)
    (k : string) :
  (forall kv, kv ∈ entries -> kv.1 <> k) ->
  putAll entries encoded !! k = encoded !! k.
Proof.
  unfold putAll. revert encoded.
  induction entries as [|[k' v'] entries IH]; intros encoded H; simpl; [done|].
  rewrite IH.
  - apply lookup_insert_ne. apply (H (k', v')). by left.
  - intros kv Hkv. apply H. by right.
Qed.

Lemma putAll_lookup_last (before after : list (string * value))
    (encoded : gmap string value) (k : string) (v : value) :
  (forall kv, kv ∈ after -> kv.1 <> k) ->
  putAll (before ++ (k, v) :: after) encoded !! k = Some v.
Proof.
  intros H. unfold putAll. rewrite foldl_app. simpl.
  fold (putAll after (<[k:=v]> (foldl (fun m kv => <[kv.1:=kv.2]> m) encoded before))).
  rewrite putAll_lookup_other by done. apply lookup_insert_eq.
Qed.

(** One turn of the projector's loop on a projectable field: the entry
    of the field, if it has one, goes into the map. *)
Lemma encodeFields_cons (fld : reflect.StructField * value)
    (rest : list (reflect.StructField * value)) (encoded : gmap string value) :
  projectable fld = true ->
  encodeFields (fld :: rest) encoded
  = encodeFields rest (putAll (option_list (fieldEntry fld)) encoded).
Proof.
  destruct fld as [tf f]. unfold projectable, fieldEntry. simpl.
  destruct (reflect.Exported tf); simpl; [|done].
  destruct (parseMapStructureTag (reflect.Tag tf)) as [[tag|]| |]; simpl;
    [|done..].
  intros Hcmp. unfold differsFromZero. rewrite Hcmp.
  destruct f as [| | | | | | |[elem|]|]; simpl;
    repeat match goal with
           | |- context [if ?b then _ else _] => destruct b; simpl
           end; done.
Qed.

(** The loop of the projector computes [putAll] of the fields' entries
    when every field is projectable. *)
Lemma encodeFields_putAll (fields : list (reflect.StructField * value))
    (encoded : gmap string value) :
  Forall (fun fld => projectable fld = true) fields ->
  encodeFields fields encoded = Ok (putAll (omap fieldEntry fields) encoded).
Proof.
  intros H. revert encoded.
  induction H as [|fld fields Hfld _ IH]; intros encoded; [reflexivity|].
  rewrite encodeFields_cons, IH by done. simpl.
  by destruct (fieldEntry fld).
Qed.

(** The projector stops at the first field whose tag does not parse,
    with the parser's error. *)
Lemma encodeFields_tag_error (before after : list (reflect.StructField * value))
    (tf : reflect.StructField) (f : value) (e : error) (encoded : gmap string value) :
  Forall (fun fld => projectable fld = true) before ->
  reflect.Exported tf = true ->
  parseMapStructureTag (reflect.Tag tf) = Err e ->
  encodeFields (before ++ (tf, f) :: after) encoded = Err e.
Proof.
  intros H Hex Hparse. revert encoded.
  induction H as [|fld fields Hfld _ IH]; intros encoded.
  - simpl. by rewrite Hex, Hparse.
  - rewrite <- app_comm_cons, encodeFields_cons by done. apply IH.
Qed.

Lemma encodeFields_tag_error_witness :
  encodeFields
    [ field "Kept" "kept" (VInt Int64 1);
      ({| reflect.Name := "Odd"; reflect.Exported := true;
          reflect.Tag := [("mapstructure", "odd,omitempty")] |}, VInt Int64 2);
      field "Never" "never" (VInt Int64 3) ] ∅
  = Err (KeyNotUnderstood "omitempty").
Proof.
  apply (encodeFields_tag_error [field "Kept" "kept" (VInt Int64 1)]);
    [repeat constructor|reflexivity|reflexivity].
Defined.

(** A tagged plain field of a type Go cannot compare makes the
    projector panic, whatever [PersistEmpty] says. *)
Lemma encodeFields_uncomparable (after : list (reflect.StructField * value))
    (tf : reflect.StructField) (tag : mapStructureTag) (f : value)
    (encoded : gmap string value) :
  reflect.Exported tf = true ->
  parseMapStructureTag (reflect.Tag tf) = Ok (Some tag) ->
  comparable f = false ->
  encodeFields ((tf, f) :: after) encoded = Panic UncomparableType.
Proof.
  intros Hex Hparse Hcmp. simpl. rewrite Hex, Hparse. simpl.
  unfold differsFromZero.
  destruct f as [| | | | | | |[elem|]|]; simpl in *; try discriminate;
    by rewrite ?Hcmp.
Qed.

Lemma encodeFields_uncomparable_witness :
  encodeFields
    [ ({| reflect.Name := "Body"; reflect.Exported := true;
          reflect.Tag := [("mapstructure", "body,persistempty")] |},
       VBytes [x01%byte]) ] ∅
  = Panic UncomparableType.
Proof.
  apply (encodeFields_uncomparable []
           {| reflect.Name := "Body"; reflect.Exported := true;
              reflect.Tag := [("mapstructure", "body,persistempty")] |}
           {| Name := "body"; PersistEmpty := true |});
    reflexivity.
Defined.


Lemma taggedEntry_plain (tag : mapStructureTag) (f : value) :
  (forall p, f <> VPtr p) ->
  taggedEntry tag f
  = if bool_decide (f <> zero_of f) || PersistEmpty tag
    then Some (Name tag, f) else None.
Proof. intros H. destruct f; try reflexivity. by destruct (H p). Qed.

(** C2, as the code has it. For a pointer to a struct whose fields are
    all projectable, [encodeStructureToMap] returns the map built field by
    field in declaration order, a later field replacing an earlier one
    under the same key: every entry of the map is the entry of some field,
    and the entry of a field is in the map unless a later field yields the
    same key. A field that cannot be set (it is not exported) or that bears
    no [mapstructure] tag yields no entry; a settable tagged pointer field
    that is nil yields [key -> null] exactly when [PersistEmpty] is true; one
    that is not nil yields [key -> dereferenced value]; a settable tagged field
    that is not a pointer yields [key -> value] exactly when the value
    differs from the zero value of its type or [PersistEmpty] is true. A
    pointer that does not point to a struct, the nil pointer included, fails
    with the must-provide-a-struct error. *)
Theorem encodeStructureToMap_spec :
  (forall fields,
     Forall (fun fld => projectable fld = true) fields ->
     encodeStructureToMap (VPtr (Some (VStruct fields))) = Ok (projection fields)) /\
  (forall fields k v,
     projection fields !! k = Some v ->
     exists fld, fld ∈ fields /\ fieldEntry fld = Some (k, v)) /\
  (forall before fld after k v,
     fieldEntry fld = Some (k, v) ->
     (forall later v', later ∈ after -> fieldEntry later <> Some (k, v')) ->
     projection (before ++ fld :: after) !! k = Some v) /\
  (forall tf f, reflect.Exported tf = false -> fieldEntry (tf, f) = None) /\
  (forall tf f,
     reflect.Lookup (reflect.Tag tf) "mapstructure" = None -> fieldEntry (tf, f) = None) /\
  (forall tf tag,
     reflect.Exported tf = true ->
     parseMapStructureTag (reflect.Tag tf) = Ok (Some tag) ->
     fieldEntry (tf, VPtr None)
       = (if PersistEmpty tag then Some (Name tag, VNil) else None) /\
     (forall elem, fieldEntry (tf, VPtr (Some elem)) = Some (Name tag, elem)) /\
     (forall f, (forall p, f <> VPtr p) ->
        (f <> zero_of f \/ PersistEmpty tag = true ->
           fieldEntry (tf, f) = Some (Name tag, f)) /\
        (f = zero_of f -> PersistEmpty tag = false -> fieldEntry (tf, f) = None))) /\
  (forall p,
     (forall fields, p <> Some (VStruct fields)) ->
     encodeStructureToMap (VPtr p) = Err MustProvideStruct).
Proof.
  repeat apply conj.
  - intros fields H. simpl. by apply encodeFields_putAll.
  - intros fields k v [H|H]%putAll_lookup_inv; [by rewrite lookup_empty in H|].
    apply list_elem_of_omap in H. exact H.
  - intros before fld after k v Hfld Hafter. unfold projection.
    rewrite omap_app. simpl. rewrite Hfld.
    apply putAll_lookup_last. intros [k' v'] Hkv Heq. simpl in Heq. subst k'.
    apply list_elem_of_omap in Hkv as (later & Hin & Hlater).
    by apply (Hafter later v').
  - intros tf f H. unfold fieldEntry. simpl. by rewrite H.
  - intros tf f H. unfold fieldEntry, parseMapStructureTag. simpl. rewrite H.
    by destruct (reflect.Exported tf).
  - intros tf tag Hex Hparse. unfold fieldEntry. simpl. rewrite Hex, Hparse.
    split; [done|]. split; [done|].
    intros f Hf. rewrite taggedEntry_plain by done. split.
    + intros [Hnz| ->]; [|by rewrite orb_true_r].
      by rewrite bool_decide_eq_true_2.
    + intros Hz ->. rewrite bool_decide_eq_false_2; [done|]. by intros [].
  - intros p H. simpl. destruct p as [[]|]; try reflexivity. by destruct (H fs).
Qed.


Lemma encodeStructureToMap_spec_witness :
  encodeStructureToMap (VPtr (Some (VStruct projectorSample)))
    = Ok (projection projectorSample) /\
  projection projectorSample !! "nil-kept" = Some VNil /\
  projection projectorSample !! "non-zero" = Some (VInt Int64 5) /\
  projection projectorSample !! "set" = Some (VString "b") /\
  projection projectorSample !! "zero" = None /\
  encodeStructureToMap (VPtr None) = Err MustProvideStruct /\
  encodeStructureToMap (VPtr (Some (VInt Int64 3))) = Err MustProvideStruct.
Proof.
  destruct encodeStructureToMap_spec as (Hrun & Hfrom & Hlast & _ & _ & _ & Hnot).
  split; [|split; [|split; [|split; [|split; [|split]]]]].
  - apply Hrun. unfold projectorSample. repeat constructor.
  - apply (Hlast (take 2 projectorSample) _ (drop 3 projectorSample));
      [reflexivity|].
    intros later v' Hin. simpl in Hin.
    repeat (apply elem_of_cons in Hin as [->|Hin]; [vm_compute; discriminate|]).
    by apply elem_of_nil in Hin.
  - apply (Hlast (take 6 projectorSample) _ (drop 7 projectorSample));
      [reflexivity|].
    intros later v' Hin. simpl in Hin.
    repeat (apply elem_of_cons in Hin as [->|Hin]; [vm_compute; discriminate|]).
    by apply elem_of_nil in Hin.
  - apply (Hlast (take 7 projectorSample) _ []); [reflexivity|].
    intros later v' Hin. by apply elem_of_nil in Hin.
  - destruct (projection projectorSample !! "zero") as [v|] eqn:E; [|reflexivity].
    apply Hfrom in E as (fld & Hin & Hfld). exfalso. unfold projectorSample in Hin.
    repeat (apply elem_of_cons in Hin as [->|Hin]; [vm_compute in Hfld; discriminate|]).
    by apply elem_of_nil in Hin.
  - apply Hnot. discriminate.
  - apply Hnot. discriminate.
Defined.

(** The rule as the specification words it fails on a tagged field that
    is not exported: its tag parses, its value is plain and differs from
    zero, and the projector returns the empty map all the same. *)
Lemma encodeStructureToMap_unexported_counterexample :
  parseMapStructureTag [("mapstructure", "x-opt-sequence-number")]
    = Ok (Some {| Name := "x-opt-sequence-number"; PersistEmpty := false |}) /\
  VInt Int64 7 <> zero_of (VInt Int64 7) /\
  encodeStructureToMap (VPtr (Some unexportedSample)) = Ok ∅ /\
  (∅ : gmap string value) !! "x-opt-sequence-number" = None.
Proof. split; [reflexivity|]. split; [discriminate|]. split; reflexivity. Qed.

(** ** The inbound translator *)

(** Copying a map entry by entry into a fresh map gives the same map. *)
Lemma map_fold_copy (m : gmap string value) :
  map_fold (fun key val (a : gmap string value) => <[key := val]> a) ∅ m = m.
Proof.
  apply (map_fold_weak_ind (fun r m => r = m)); [done|].
  by intros key val m' r _ ->.
Qed.

Lemma lockTokenFromMessageTag_no_panic (w : amqp.Message) (p : panic) :
  lockTokenFromMessageTag w <> Panic p.
Proof. unfold lockTokenFromMessageTag. by case_decide. Qed.

Section InboundProperties.

Variable Decode : gmap string value -> option SystemProperties * option error.

(** The steps after the properties block leave what it has read in
    place. *)
Lemma newMessage_returns (data : list byte) (w : amqp.Message) :
  amqp.Properties w = None \/ amqp.Header w <> None ->
  exists msg err,
    newMessage Decode data (Some w) = Returns msg err /\
    Data msg = data /\ message msg = Some w /\
    UserProperties msg = amqp.ApplicationProperties w /\
    match amqp.Properties w, amqp.Header w with
    | Some props, Some header => readsBlocks props header msg
    | Some _, None => False
    | None, _ => readsNoBlocks msg
    end.
Proof.
  intros Hpre. unfold newMessage, readProperties, readsBlocks, readsNoBlocks.
  destruct (amqp.Properties w) as [props|], (amqp.Header w) as [header|];
    try (by destruct Hpre as [|[]]);
    destruct (amqp.ApplicationProperties w) as [app|];
    destruct (amqp.Annotations w) as [annotations|];
    try destruct (Decode annotations) as [sysProps [err|]];
    try (destruct (decide (0 < length (amqp.DeliveryTag w))%nat);
         [destruct (lockTokenFromMessageTag w) as [token|err|p] eqn:E;
          [| |by apply lockTokenFromMessageTag_no_panic in E]|]);
    (eexists _, _; split; [reflexivity|]; simpl; rewrite ?map_fold_copy;
     by repeat split).
Qed.

Lemma newMessage_panics (data : list byte) (w : amqp.Message)
    (props : amqp.MessageProperties) :
  amqp.Properties w = Some props -> amqp.Header w = None ->
  newMessage Decode data (Some w) = Panics NilDereference.
Proof. intros Hp Hh. unfold newMessage, readProperties. by rewrite Hp, Hh. Qed.

(** The lock token of a received message: with no decoding error in
    the way, a delivery tag of 16 bytes gives the swapped bytes as lock
    token, an empty or absent tag gives none, and a tag of any other length
    makes [newMessage] return the invalid-delivery-tag error next to a
    message without lock token. *)
Lemma newMessage_lock_token (data : list byte) (w : amqp.Message) :
  amqp.Properties w = None \/ amqp.Header w <> None ->
  (forall annotations, amqp.Annotations w = Some annotations ->
     (Decode annotations).2 = None) ->
  exists msg err,
    newMessage Decode data (Some w) = Returns msg err /\
    (length (amqp.DeliveryTag w) = 16%nat ->
       err = None /\ LockToken msg = Some (swapGUIDBytes (amqp.DeliveryTag w))) /\
    (length (amqp.DeliveryTag w) = 0%nat -> err = None /\ LockToken msg = None) /\
    (length (amqp.DeliveryTag w) <> 0%nat ->
     length (amqp.DeliveryTag w) <> 16%nat ->
       err = Some (InvalidDeliveryTag (amqp.DeliveryTag w)) /\ LockToken msg = None).
Proof.
  intros Hpre Hdec. unfold newMessage, readProperties.
  assert (forall tag : list byte, length tag = 16%nat -> take 16 tag = tag) as Htake.
  { intros tag H. apply firstn_all2. by rewrite H. }
  destruct (amqp.Properties w) as [props|], (amqp.Header w) as [header|];
    try (by destruct Hpre as [|[]]);
    destruct (amqp.ApplicationProperties w) as [app|];
    destruct (amqp.Annotations w) as [annotations|];
    try (specialize (Hdec annotations eq_refl);
         destruct (Decode annotations) as [sysProps [err|]]; simpl in Hdec;
         [discriminate|]);
    unfold lockTokenFromMessageTag;
    (destruct (decide (0 < length (amqp.DeliveryTag w))%nat) as [Hpos|Hzero];
     [destruct (decide (length (amqp.DeliveryTag w) ≠ 16%nat)) as [Hne|Heq];
      [|apply dec_stable in Heq]|]);
    (eexists _, _; split; [reflexivity|]; simpl;
     repeat split; intros; try lia; try done; by rewrite Htake).
Qed.

End InboundProperties.

Lemma newMessage_lock_token_witness :
  (exists msg err,
     newMessage decodeNothing [] (Some (taggedMessage sampleTag)) = Returns msg err /\
     err = None /\ LockToken msg = Some (swapGUIDBytes sampleTag)) /\
  (exists msg err,
     newMessage decodeNothing [] (Some (taggedMessage [xff%byte])) = Returns msg err /\
     err = Some (InvalidDeliveryTag [xff%byte]) /\ LockToken msg = None).
Proof.
  split.
  - destruct (newMessage_lock_token decodeNothing [] (taggedMessage sampleTag))
      as (msg & err & Hrun & H16 & _); [by left|discriminate|].
    exists msg, err. split; [exact Hrun|]. by apply H16.
  - destruct (newMessage_lock_token decodeNothing [] (taggedMessage [xff%byte]))
      as (msg & err & Hrun & _ & _ & Hbad); [by left|discriminate|].
    exists msg, err. split; [exact Hrun|]. apply Hbad; simpl; lia.
Defined.


(** C10. [newMessage] reads the delivery count and the time-to-live
    through the header pointer whenever the properties block is present
    and never tests that pointer: with a properties block and no header
    block it panics on the nil dereference, and it returns exactly when the
    wire message has no properties block or has a header block. With both
    blocks the message gets the header's delivery count plus one (in
    [uint32]) and its time-to-live; with no properties block the message
    keeps delivery count 0 and a nil time-to-live. *)
Theorem newMessage_header_precondition
    (Decode : gmap string value -> option SystemProperties * option error)
    (data : list byte) (w : amqp.Message) :
  (amqp.Properties w <> None -> amqp.Header w = None ->
     newMessage Decode data (Some w) = Panics NilDereference) /\
  ((exists msg err, newMessage Decode data (Some w) = Returns msg err) <->
     (amqp.Properties w = None \/ amqp.Header w <> None)) /\
  (forall props header msg err,
     amqp.Properties w = Some props -> amqp.Header w = Some header ->
     newMessage Decode data (Some w) = Returns msg err ->
     DeliveryCount msg = add_uint32 (amqp.DeliveryCount header) 1 /\
     TTL msg = Some (amqp.TTL header)) /\
  (forall msg err,
     amqp.Properties w = None ->
     newMessage Decode data (Some w) = Returns msg err ->
     DeliveryCount msg = 0 /\ TTL msg = None).
Proof.
  split; [|split; [|split]].
  - intros Hp Hh. destruct (amqp.Properties w) as [props|] eqn:E; [|done].
    by apply (newMessage_panics Decode data w props).
  - split.
    + intros (msg & err & Hrun).
      destruct (amqp.Properties w) as [props|] eqn:Ep; [|by left].
      destruct (amqp.Header w) as [header|] eqn:Eh; [by right|].
      by rewrite (newMessage_panics Decode data w props) in Hrun.
    + intros Hpre.
      destruct (newMessage_returns Decode data w Hpre) as (msg & err & Hrun & _).
      by exists msg, err.
  - intros props header msg err Hp Hh Hrun.
    destruct (newMessage_returns Decode data w) as (msg' & err' & Hrun' & _ & _ & _ & H).
    { right. by rewrite Hh. }
    rewrite Hrun in Hrun'. injection Hrun' as <- <-.
    rewrite Hp, Hh in H. unfold readsBlocks in H. tauto.
  - intros msg err Hp Hrun.
    destruct (newMessage_returns Decode data w) as (msg' & err' & Hrun' & _ & _ & _ & H).
    { by left. }
    rewrite Hrun in Hrun'. injection Hrun' as <- <-.
    rewrite Hp in H. unfold readsNoBlocks in H. tauto.
Qed.

Lemma newMessage_header_precondition_witness :
  newMessage decodeNothing [] (Some (receivedMessage None)) = Panics NilDereference /\
  (exists msg err,
     newMessage decodeNothing [] (Some (receivedMessage (Some (headerWithCount 2))))
     = Returns msg err) /\
  (forall msg err,
     newMessage decodeNothing [] (Some (receivedMessage (Some (headerWithCount 2))))
     = Returns msg err ->
     DeliveryCount msg = 3 /\ TTL msg = Some 0) /\
  (forall msg err,
     newMessage decodeNothing [] (Some emptyMessage) = Returns msg err ->
     DeliveryCount msg = 0 /\ TTL msg = None).
Proof.
  split; [|split; [|split]].
  - apply (proj1 (newMessage_header_precondition decodeNothing []
                    (receivedMessage None))); [discriminate|reflexivity].
  - apply (proj1 (proj2 (newMessage_header_precondition decodeNothing []
                    (receivedMessage (Some (headerWithCount 2)))))).
    right. discriminate.
  - intros msg err Hrun.
    apply (proj1 (proj2 (proj2 (newMessage_header_precondition decodeNothing []
                    (receivedMessage (Some (headerWithCount 2))))))
             sampleProperties (headerWithCount 2) msg err);
      [reflexivity|reflexivity|exact Hrun].
  - intros msg err Hrun.
    apply (proj2 (proj2 (proj2 (newMessage_header_precondition decodeNothing []
                    emptyMessage))) msg err); [reflexivity|exact Hrun].
Defined.

(** C5, as the code has it. For a wire message with a properties block
    and a header block, [newMessage] returns a message whose delivery count
    is the header's delivery count plus one in [uint32] arithmetic: the
    count plus one for every count below 4294967295, and 0 at 4294967295.
    A wire count of 0 gives 1 and a wire count of 5 gives 6. *)
Theorem newMessage_delivery_count
    (Decode : gmap string value -> option SystemProperties * option error)
    (data : list byte) (w : amqp.Message)
    (props : amqp.MessageProperties) (header : amqp.MessageHeader) :
  amqp.Properties w = Some props ->
  amqp.Header w = Some header ->
  0 <= amqp.DeliveryCount header < 2 ^ 32 ->
  exists msg err,
    newMessage Decode data (Some w) = Returns msg err /\
    DeliveryCount msg = (amqp.DeliveryCount header + 1) mod 2 ^ 32 /\
    (amqp.DeliveryCount header < 4294967295 ->
       DeliveryCount msg = amqp.DeliveryCount header + 1) /\
    (amqp.DeliveryCount header = 4294967295 -> DeliveryCount msg = 0) /\
    (amqp.DeliveryCount header = 0 -> DeliveryCount msg = 1) /\
    (amqp.DeliveryCount header = 5 -> DeliveryCount msg = 6).
Proof.
  intros Hp Hh Hrange.
  destruct (newMessage_returns Decode data w) as (msg & err & Hrun & _ & _ & _ & H).
  { right. by rewrite Hh. }
  rewrite Hp, Hh in H. destruct H as (_ & _ & _ & _ & _ & _ & _ & _ & _ & Hcount & _).
  exists msg, err. split; [done|]. unfold add_uint32 in Hcount. rewrite Hcount.
  split; [done|]. split; [|split; [|split]].
  - intros Hlt. apply Z.mod_small. lia.
  - by intros ->.
  - by intros ->.
  - by intros ->.
Qed.

Lemma newMessage_delivery_count_witness :
  (exists msg err,
     newMessage decodeNothing [] (Some (receivedMessage (Some (headerWithCount 0))))
     = Returns msg err /\ DeliveryCount msg = 1) /\
  (exists msg err,
     newMessage decodeNothing [] (Some (receivedMessage (Some (headerWithCount 5))))
     = Returns msg err /\ DeliveryCount msg = 6).
Proof.
  split.
  - destruct (newMessage_delivery_count decodeNothing []
                (receivedMessage (Some (headerWithCount 0)))
                sampleProperties (headerWithCount 0) eq_refl eq_refl)
      as (msg & err & Hrun & _ & _ & _ & H0 & _); [simpl; lia|].
    exists msg, err. split; [exact Hrun|]. by apply H0.
  - destruct (newMessage_delivery_count decodeNothing []
                (receivedMessage (Some (headerWithCount 5)))
                sampleProperties (headerWithCount 5) eq_refl eq_refl)
      as (msg & err & Hrun & _ & _ & _ & _ & H5); [simpl; lia|].
    exists msg, err. split; [exact Hrun|]. by apply H5.
Defined.

(** The delivery count is not the header's count plus one at the largest
    [uint32]: the sum wraps to 0. *)
Lemma newMessage_delivery_count_counterexample :
  exists msg,
    newMessage decodeNothing []
      (Some (receivedMessage (Some (headerWithCount 4294967295))))
    = Returns msg None /\
    DeliveryCount msg = 0 /\
    DeliveryCount msg <> 4294967295 + 1.
Proof. eexists. split; [reflexivity|]. split; [reflexivity|]. simpl. discriminate. Qed.


(** C4. [messageFromAMQPMessage] takes [msg.Data[0]] without looking at
    the length of [msg.Data]: on a wire message with no data section the
    index is out of range and the call panics, it returns no error. On a
    wire message with a data section the call is [newMessage] on the first
    of them, and the message it returns has that section as its payload. *)
Theorem messageFromAMQPMessage_payload
    (Decode : gmap string value -> option SystemProperties * option error)
    (w : amqp.Message) :
  (amqp.Data w = [] ->
     messageFromAMQPMessage Decode (Some w) = Panics IndexOutOfRange) /\
  (forall data rest,
     amqp.Data w = data :: rest ->
     messageFromAMQPMessage Decode (Some w) = newMessage Decode data (Some w) /\
     (amqp.Properties w = None \/ amqp.Header w <> None ->
        exists msg err,
          messageFromAMQPMessage Decode (Some w) = Returns msg err /\
          Data msg = data)).
Proof.
  unfold messageFromAMQPMessage. split.
  - by intros ->.
  - intros data rest ->. split; [done|]. intros Hpre.
    destruct (newMessage_returns Decode data w Hpre) as (msg & err & Hrun & Hdata & _).
    by exists msg, err.
Qed.

Lemma messageFromAMQPMessage_payload_witness :
  messageFromAMQPMessage decodeNothing (Some emptyMessage) = Panics IndexOutOfRange /\
  exists msg err,
    messageFromAMQPMessage decodeNothing
      (Some (receivedMessage (Some (headerWithCount 0)))) = Returns msg err /\
    Data msg = bytes_of_string "payload".
Proof.
  split.
  - apply (proj1 (messageFromAMQPMessage_payload decodeNothing emptyMessage)).
    reflexivity.
  - apply (proj2 (messageFromAMQPMessage_payload decodeNothing
                    (receivedMessage (Some (headerWithCount 0))))
             (bytes_of_string "payload") [] eq_refl).
    right. discriminate.
Defined.

(** ** The outbound translator and the round trip *)

(** The projector gets through every [SystemProperties]: all its fields
    are exported pointers with a tag that parses. *)
Lemma encodeStructureToMap_SystemProperties (p : SystemProperties) :
  encodeStructureToMap (VPtr (Some (reflect_SystemProperties p)))
  = Ok (projection (systemFields p)).
Proof.
  cbv beta iota delta [encodeStructureToMap reflect_SystemProperties].
  apply encodeFields_putAll. repeat constructor.
Qed.

(** [toMsg] always returns a wire message; these are the parts of it the
    inbound translator reads. *)
Lemma toMsg_returns (m : Message) :
  exists w,
    toMsg m = Ok w /\
    amqp.Properties w
    = Some {| amqp.MessageID := VString (ID m);
              amqp.GroupID := (if GroupID m is Some g then g else "");
              amqp.GroupSequence := (if GroupSequence m is Some n then n else 0);
              amqp.CorrelationID := VString (CorrelationID m);
              amqp.ContentType := ContentType m;
              amqp.Subject := Label m;
              amqp.To := To m;
              amqp.ReplyTo := ReplyTo m;
              amqp.ReplyToGroupID := ReplyToGroupID m |} /\
    amqp.Header w
    = match TTL m with
      | Some ttl =>
          Some (setHeaderTTL ttl
                  (if amqp.Header (wireBase m) is Some h then h
                   else amqp.zeroMessageHeader))
      | None => amqp.Header (wireBase m)
      end /\
    amqp.ApplicationProperties w
    = match UserProperties m with
      | Some props =>
          if decide (0 < size props)%nat then Some props
          else amqp.ApplicationProperties (wireBase m)
      | None => amqp.ApplicationProperties (wireBase m)
      end /\
    amqp.Data w = amqp.Data (wireBase m) /\
    amqp.DeliveryTag w = amqp.DeliveryTag (wireBase m) /\
    amqp.Annotations w
    = match SystemProps m with
      | Some sysProps => Some (projection (systemFields sysProps))
      | None => amqp.Annotations (wireBase m)
      end.
Proof.
  unfold toMsg, annotationsFromMap. fold (wireBase m).
  destruct (SystemProps m) as [sysProps|];
    [rewrite encodeStructureToMap_SystemProperties|];
    simpl; destruct (UserProperties m) as [props|];
    try destruct (decide (0 < size props)%nat);
    destruct (LockToken m), (TTL m);
    (eexists; split; [reflexivity|]; simpl; rewrite ?map_fold_copy;
     by repeat split).
Qed.

(** C3. A message the application has built, wrapping no wire message
    and bearing no time-to-live, does not survive the round trip: [toMsg]
    gives a wire message with a properties block and no header block, and
    the inbound translator panics on it, dereferencing the nil header. *)
Theorem roundtrip_without_ttl
    (Decode : gmap string value -> option SystemProperties * option error)
    (m : Message) :
  message m = None -> TTL m = None ->
  exists w,
    toMsg m = Ok w /\
    amqp.Properties w <> None /\ amqp.Header w = None /\
    messageFromAMQPMessage Decode (Some w) = Panics NilDereference.
Proof.
  intros Hm Httl.
  destruct (toMsg_returns m) as (w & Hto & Hp & Hh & _ & Hdata & _).
  unfold wireBase in *. rewrite Hm in *. rewrite Httl in Hh. simpl in *.
  exists w. split; [done|]. split; [by rewrite Hp|]. split; [done|].
  unfold messageFromAMQPMessage. rewrite Hdata.
  eapply newMessage_panics; eauto.
Qed.

Lemma roundtrip_without_ttl_witness :
  exists w,
    toMsg plainMessage = Ok w /\
    amqp.Properties w <> None /\ amqp.Header w = None /\
    messageFromAMQPMessage decodeNothing (Some w) = Panics NilDereference.
Proof. apply (roundtrip_without_ttl decodeNothing plainMessage); reflexivity. Defined.

(** With a time-to-live set the round trip goes through: the message
    that comes back has the content type, correlation id, label, to,
    reply-to, reply-to-group-id and user properties of the message that
    went out, its payload and id too, the time-to-live, and delivery
    count 1. *)
Lemma roundtrip_with_ttl
    (Decode : gmap string value -> option SystemProperties * option error)
    (m : Message) (ttl : Z) :
  message m = None -> TTL m = Some ttl ->
  exists w msg err,
    toMsg m = Ok w /\
    messageFromAMQPMessage Decode (Some w) = Returns msg err /\
    ContentType msg = ContentType m /\
    CorrelationID msg = CorrelationID m /\
    Label msg = Label m /\
    To msg = To m /\
    ReplyTo msg = ReplyTo m /\
    ReplyToGroupID msg = ReplyToGroupID m /\
    default ∅ (UserProperties msg) = default ∅ (UserProperties m) /\
    Data msg = Data m /\ ID msg = ID m /\ TTL msg = Some ttl /\
    DeliveryCount msg = 1.
Proof.
  intros Hm Httl.
  destruct (toMsg_returns m) as (w & Hto & Hp & Hh & Happ & Hdata & _).
  unfold wireBase in *. rewrite Hm in *. rewrite Httl in Hh. simpl in *.
  destruct (newMessage_returns Decode (Data m) w)
    as (msg & err & Hrun & Hd & _ & Hu & H).
  { right. by rewrite Hh. }
  rewrite Hp, Hh in H.
  destruct H as (Hid & Hcid & _ & _ & Hct & Hl & Hto' & Hr & Hrg & Hdc & Ht).
  simpl in Hid, Hcid, Hct, Hl, Hto', Hr, Hrg, Hdc, Ht.
  exists w, msg, err. split; [done|].
  split; [unfold messageFromAMQPMessage; by rewrite Hdata|].
  do 6 (split; [done|]). split; [|by repeat split].
  rewrite Hu, Happ. destruct (UserProperties m) as [props|]; [|done].
  case_decide as Hsize; [done|]. simpl.
  symmetry. apply map_size_empty_iff. lia.
Qed.

Lemma roundtrip_with_ttl_witness :
  exists w msg err,
    toMsg timedMessage = Ok w /\
    messageFromAMQPMessage decodeNothing (Some w) = Returns msg err /\
    ContentType msg = "text/plain" /\
    CorrelationID msg = "c-7" /\
    Label msg = "greeting" /\
    To msg = "orders" /\
    ReplyTo msg = "replies" /\
    ReplyToGroupID msg = "g" /\
    default ∅ (UserProperties msg)
    = <["a" := VString "1"]> (<["b" := VInt Int64 2]> ∅) /\
    Data msg = bytes_of_string "hi" /\ ID msg = "id-1" /\ TTL msg = Some 30 /\
    DeliveryCount msg = 1.
Proof. apply (roundtrip_with_ttl decodeNothing timedMessage 30); reflexivity. Defined.

(** ** Scheduling *)

(** A scheduled message goes out with its enqueue time in the wire
    annotations, under the key of the [ScheduledEnqueueTime] field. *)
Lemma ScheduleAt_toMsg (m : Message) (t : Z) :
  exists w annotations,
    toMsg (ScheduleAt m t) = Ok w /\
    amqp.Annotations w = Some annotations /\
    annotations !! "x-opt-scheduled-enqueue-time" = Some (VTime t).
Proof.
  destruct (toMsg_returns (ScheduleAt m t)) as (w & Hto & _ & _ & _ & _ & _ & Ha).
  simpl in Ha. exists w. eexists. split; [done|]. split; [exact Ha|].
  unfold systemFields, reflect_SystemProperties, projection. simpl ScheduledEnqueueTime.
  match goal with
  | |- putAll (omap fieldEntry (?f0 :: ?f1 :: ?f2 :: ?f3 :: ?f4 :: ?f5 :: ?f6 :: ?rest)) _ !! _ = _ =>
      change (f0 :: f1 :: f2 :: f3 :: f4 :: f5 :: f6 :: rest)
        with ([f0; f1; f2; f3; f4; f5] ++ f6 :: rest)
  end.
  rewrite omap_app.
  change (omap fieldEntry (?f :: ?rest)) with
    (match fieldEntry f with Some y => y :: omap fieldEntry rest | None => omap fieldEntry rest end).
  change (fieldEntry (field "ScheduledEnqueueTime" "x-opt-scheduled-enqueue-time"
                        (VPtr (VTime <$> Some t))))
    with (Some ("x-opt-scheduled-enqueue-time", VTime t)).
  apply putAll_lookup_last.
  intros kv Hin. apply list_elem_of_omap in Hin as (fld & Hfld & Hentry).
  repeat (apply elem_of_cons in Hfld as [->|Hfld];
          [unfold fieldEntry, field in Hentry; simpl in Hentry;
           match type of Hentry with
           | context [_ <$> ?o] => destruct o; simpl in Hentry
           end; by simplify_eq|]).
  by apply elem_of_nil in Hfld.
Qed.


(** ** Dispositions *)

Lemma map_fold_VString (data : gmap string string) :
  map_fold (fun key val (info : gmap string value) => <[key := VString val]> info) ∅ data
  = VString <$> data.
Proof.
  apply (map_fold_weak_ind (fun r m => r = VString <$> m)).
  - by rewrite fmap_empty.
  - intros key val m r _ ->. by rewrite fmap_insert.
Qed.

(** C8. Run against the transport, the action of
    [DeadLetterWithInfo(err, condition, info)] appends one settlement: the
    rejection of the wire message the message wraps, carrying the condition
    string given, the text of [err] as description, and as info the nil map
    when no info was given and otherwise a map with exactly the given keys,
    each bound to the given string. *)
Theorem DeadLetterWithInfo_rejects (m : Message) (w : amqp.Message) (e : error)
    (condition : MessageErrorCondition) (additionalData : option (gmap string string))
    (log : settled) :
  message m = Some w ->
  DeadLetterWithInfo m (Some e) condition additionalData log
  = Ok (log ++ [(w, Reject {| amqp.Condition := condition;
                              amqp.Description := Error e;
                              amqp.Info := infoOf <$> additionalData |})])%list /\
  (forall (data : gmap string string) (key : string),
     infoOf data !! key = VString <$> (data !! key)).
Proof.
  intros Hm. split.
  - unfold DeadLetterWithInfo, settle. rewrite Hm.
    destruct additionalData as [data|]; simpl; [|done].
    by rewrite map_fold_VString.
  - intros data key. apply lookup_fmap.
Qed.

Lemma DeadLetterWithInfo_rejects_witness :
  DeadLetterWithInfo deliveredMessage (Some (ForeignError "lease expired"))
    ErrorPreconditionFailed (Some {[ "reason" := "expired" ]}) []
  = Ok [(receivedMessage (Some (headerWithCount 0)),
         Reject {| amqp.Condition := "amqp:precondition-failed";
                   amqp.Description := "lease expired";
                   amqp.Info := Some {[ "reason" := VString "expired" ]} |})].
Proof.
  rewrite (proj1 (DeadLetterWithInfo_rejects deliveredMessage
                    (receivedMessage (Some (headerWithCount 0)))
                    (ForeignError "lease expired") ErrorPreconditionFailed
                    (Some {[ "reason" := "expired" ]}) [] eq_refl)).
  simpl. unfold infoOf. by rewrite map_fmap_singleton.
Defined.

(** The action panics when the message wraps no wire message, and when
    the error is nil. *)
Lemma DeadLetterWithInfo_panics (m : Message) (err : option error)
    (condition : MessageErrorCondition) (additionalData : option (gmap string string))
    (log : settled) :
  message m = None \/ err = None ->
  DeadLetterWithInfo m err condition additionalData log = Panic NilDereference.
Proof.
  unfold DeadLetterWithInfo, settle.
  intros [Hm| ->]; [|done]. rewrite Hm. by destruct err.
Qed.

Lemma DeadLetterWithInfo_panics_witness :
  DeadLetterWithInfo plainMessage (Some (ForeignError "lease expired"))
    ErrorPreconditionFailed None [] = Panic NilDereference /\
  DeadLetterWithInfo deliveredMessage None ErrorPreconditionFailed None []
    = Panic NilDereference.
Proof.
  split; apply DeadLetterWithInfo_panics; [by left|by right].
Defined.

(** ** The text-map reader *)

Section ForeachKeyProperties.

Context {S : Type}.
Variable handler : string -> string -> S -> S * option error.

(** Some run of [ForeachKey] always exists. *)
Lemma ForeachKey_runs (m : Message) (st : S) :
  exists out, ForeachKey handler m st out.
Proof. eexists. exists (map_to_list (default ∅ (UserProperties m))). by split. Qed.

(** The loop over a sequence of entries is the loop over its first part
    and then, if that part ended without error, over the rest. *)
Lemma rangeUserProperties_app (before after : list (string * value)) (st : S) :
  rangeUserProperties handler (before ++ after) st
  = match rangeUserProperties handler before st with
    | (st', Ok _) => rangeUserProperties handler after st'
    | out => out
    end.
Proof.
  revert st. induction before as [|[key val] before IH]; intros st; simpl; [done|].
  destruct val; try done.
  destruct (handler key s st) as [st' [e|]]; [done|]. apply IH.
Qed.

(** Over entries that are all strings the loop does not panic: it ends
    with no error after calling the handler on every entry, or with the
    first error the handler returns, the entries after it left alone. *)
Lemma rangeUserProperties_strings (entries : list (string * value)) (st : S) :
  Forall (fun kv => exists s, kv.2 = VString s) entries ->
  (exists st', rangeUserProperties handler entries st = (st', Ok tt) /\
     forall before key val after st1,
       entries = (before ++ (key, val) :: after)%list ->
       rangeUserProperties handler before st = (st1, Ok tt) ->
       exists s st2, val = VString s /\ handler key s st1 = (st2, None)) \/
  (exists before key s after st1 st2 e,
     entries = (before ++ (key, VString s) :: after)%list /\
     rangeUserProperties handler before st = (st1, Ok tt) /\
     handler key s st1 = (st2, Some e) /\
     rangeUserProperties handler entries st = (st2, Err e)).
Proof.
  intros H. revert st. induction H as [|[key val] entries [s Hs] _ IH]; intros st.
  - left. exists st. split; [done|].
    intros before key val after st1 Heq. by destruct before.
  - simpl in Hs. subst val. simpl.
    destruct (handler key s st) as [st2 [e|]] eqn:Hh.
    + right. exists [], key, s, entries, st, st2, e. by rewrite Hh.
    + destruct (IH st2) as [(st' & Hrun & Hall)|
        (before & key' & s' & after & st1 & st3 & e & -> & Hb & Hh' & Hrun)].
      * left. exists st'. split; [done|].
        intros before key' val' after st1 Heq Hb.
        destruct before as [|[k0 v0] before]; simpl in *.
        -- injection Heq as <- <- <-. injection Hb as <-. by exists s, st2.
        -- injection Heq as <- <- ->. rewrite Hh in Hb. by eapply Hall.
      * right. exists ((key, VString s) :: before), key', s', after, st1, st3, e.
        simpl. by rewrite Hh.
Qed.

(** A run that ends without error has met strings only. *)
Lemma rangeUserProperties_ok (entries : list (string * value)) (st st' : S) :
  rangeUserProperties handler entries st = (st', Ok tt) ->
  Forall (fun kv => exists s, kv.2 = VString s) entries.
Proof.
  revert st. induction entries as [|[key val] entries IH]; intros st; simpl; [done|].
  destruct val; try done.
  destruct (handler key s st) as [st2 [e|]]; [done|].
  intros H. constructor; [by exists s|by eapply IH].
Qed.

(** C9. On a message with a user property that is not a string,
    [ForeachKey] does not return an error for it: the type assertion
    panics. There is a run, the one that visits that property first, which
    panics before the handler is ever called; no run ends without error;
    and when that property is the only one, every run is that panic. *)
Theorem ForeachKey_non_string_panics (m : Message) (props : gmap string value)
    (key : string) (val : value) (st : S) :
  UserProperties m = Some props ->
  props !! key = Some val ->
  (forall s, val <> VString s) ->
  ForeachKey handler m st (st, Panic TypeAssertionFailed) /\
  (forall out, ForeachKey handler m st out -> out.2 <> Ok tt) /\
  (props = {[ key := val ]} ->
   forall out, ForeachKey handler m st out -> out = (st, Panic TypeAssertionFailed)).
Proof.
  intros Hm Hkey Hval.
  assert (forall rest,
            rangeUserProperties handler ((key, val) :: rest) st
            = (st, Panic TypeAssertionFailed)) as Hfirst.
  { intros rest. simpl. destruct val; try done. by destruct (Hval s). }
  unfold ForeachKey. rewrite Hm. simpl. split; [|split].
  - apply elem_of_map_to_list, elem_of_Permutation in Hkey as [rest Hperm].
    exists ((key, val) :: rest). split; [by symmetry|apply Hfirst].
  - intros [st' r] (entries & Hperm & Hrun) Hok. simpl in Hok. subst r.
    apply rangeUserProperties_ok in Hrun.
    apply elem_of_map_to_list in Hkey. rewrite <- Hperm in Hkey.
    rewrite Forall_forall in Hrun. destruct (Hrun _ Hkey) as [s Hs].
    by destruct (Hval s).
  - intros -> out (entries & Hperm & <-).
    rewrite map_to_list_singleton in Hperm.
    apply Permutation_singleton_r in Hperm. subst entries. apply Hfirst.
Qed.

(** On a message whose user properties are all strings no run of
    [ForeachKey] panics: a run ends without error after the handler has
    been called on every pair without returning one, or ends with the first
    error the handler returns, the pairs after it left alone. *)
Lemma ForeachKey_strings (m : Message) (st : S) (out : S * result unit) :
  (forall key val,
     default ∅ (UserProperties m) !! key = Some val -> exists s, val = VString s) ->
  ForeachKey handler m st out ->
  exists entries,
    entries ≡ₚ map_to_list (default ∅ (UserProperties m)) /\
    rangeUserProperties handler entries st = out /\
    ((exists st', out = (st', Ok tt) /\
        forall before key val after st1,
          entries = before ++ (key, val) :: after ->
          rangeUserProperties handler before st = (st1, Ok tt) ->
          exists s st2, val = VString s /\ handler key s st1 = (st2, None)) \/
     (exists before key s after st1 st2 e,
        entries = before ++ (key, VString s) :: after /\
        rangeUserProperties handler before st = (st1, Ok tt) /\
        handler key s st1 = (st2, Some e) /\
        out = (st2, Err e))).
Proof.
  intros Hall (entries & Hperm & Hrun). exists entries.
  split; [done|]. split; [done|].
  assert (Forall (fun kv => exists s, kv.2 = VString s) entries) as Hstr.
  { apply Forall_forall. intros [key val] Hin. simpl.
    rewrite Hperm in Hin. apply elem_of_map_to_list in Hin. by eapply Hall. }
  destruct (rangeUserProperties_strings entries st Hstr)
    as [(st' & Hok & Hcalls)|(before & key & s & after & st1 & st2 & e & H)].
  - left. exists st'. split; [by rewrite <- Hrun|done].
  - right. exists before, key, s, after, st1, st2, e.
    destruct H as (? & ? & ? & Herr). repeat split; try done. by rewrite <- Hrun.
Qed.

End ForeachKeyProperties.

Lemma ForeachKey_strings_witness :
  exists entries,
    entries ≡ₚ map_to_list (default ∅ (UserProperties tracedMessage)) /\
    rangeUserProperties countingHandler entries 0%nat = (1%nat, Ok tt) /\
    ((exists st', (1%nat, Ok tt) = (st', Ok tt) /\
        forall before key val after st1,
          entries = before ++ (key, val) :: after ->
          rangeUserProperties countingHandler before 0%nat = (st1, Ok tt) ->
          exists s st2, val = VString s /\ countingHandler key s st1 = (st2, None)) \/
     (exists before key s after st1 st2 e,
        entries = before ++ (key, VString s) :: after /\
        rangeUserProperties countingHandler before 0%nat = (st1, Ok tt) /\
        countingHandler key s st1 = (st2, Some e) /\
        (1%nat, Ok tt) = (st2, Err e))).
Proof.
  apply (ForeachKey_strings countingHandler tracedMessage 0%nat (1%nat, Ok tt)).
  - intros key val H. simpl in H.
    apply lookup_singleton_Some in H as [_ <-]. by eexists.
  - exists [("trace-id", VString "abc")]. split; [|reflexivity].
    simpl. by rewrite map_to_list_singleton.
Defined.

Lemma ForeachKey_non_string_panics_witness :
  ForeachKey countingHandler numberedMessage 0%nat (0%nat, Panic TypeAssertionFailed) /\
  forall out,
    ForeachKey countingHandler numberedMessage 0%nat out ->
    out = (0%nat, Panic TypeAssertionFailed).
Proof.
  destruct (ForeachKey_non_string_panics countingHandler numberedMessage
              {[ "attempt" := VInt Int64 5 ]} "attempt" (VInt Int64 5) 0%nat)
    as (Hrun & _ & Hall); [reflexivity|apply lookup_singleton_eq|discriminate|].
  split; [exact Hrun|]. by apply Hall.
Defined.

(** * Further properties *)

(** ** System properties on the wire *)

(** A settable pointer field whose tag parses without [persistempty]
    yields its entry exactly when it is set. *)
Lemma fieldEntry_pointer (tf : reflect.StructField) (tag : mapStructureTag)
    (o : option value) :
  reflect.Exported tf = true ->
  parseMapStructureTag (reflect.Tag tf) = Ok (Some tag) ->
  PersistEmpty tag = false ->
  fieldEntry (tf, VPtr o) = pair (Name tag) <$> o.
Proof.
  intros Hex Hparse Hpe. unfold fieldEntry. simpl. rewrite Hex, Hparse.
  destruct o; simpl; [done|by rewrite Hpe].
Qed.

Lemma annotationOf_absent (key : string) (table : list (string * option value)) :
  key ∉ table.*1 -> annotationOf key table = None.
Proof.
  induction table as [|[k o] table IH]; simpl; [done|].
  intros Hnot. apply not_elem_of_cons in Hnot as [Hne Hnot].
  rewrite decide_False by done. by apply IH.
Qed.

(** Put into a map, the set rows of a table without repeated keys are
    found under their keys, and the other keys of the map are left alone. *)
Lemma putAll_setRows (table : list (string * option value))
    (encoded : gmap string value) (key : string) :
  NoDup table.*1 ->
  putAll (setRows table) encoded !! key
  = match annotationOf key table with
    | Some v => Some v
    | None => encoded !! key
    end.
Proof.
  intros Hnd. revert encoded.
  induction table as [|[k o] table IH]; intros encoded; [done|].
  apply NoDup_cons in Hnd as [Hk Hnd]. simpl in Hk.
  unfold setRows, putAll in *. simpl.
  destruct (decide (k = key)) as [->|Hne].
  - destruct o as [v|]; simpl.
    + rewrite IH, annotationOf_absent by done. apply lookup_insert_eq.
    + by rewrite IH, annotationOf_absent by done.
  - destruct o as [v|]; simpl; rewrite IH by done;
      destruct (annotationOf key table); try done.
    by apply lookup_insert_ne.
Qed.

(** The entries the projector finds in a [SystemProperties] are the set
    rows of its table. *)
Lemma systemFields_entries (p : SystemProperties) :
  omap fieldEntry (systemFields p) = setRows (systemAnnotations p).
Proof.
  unfold systemFields, reflect_SystemProperties, systemAnnotations, setRows, field.
  cbn [omap list_omap fst snd].
  repeat (erewrite fieldEntry_pointer by reflexivity).
  reflexivity.
Qed.

Lemma systemAnnotations_keys (p : SystemProperties) :
  NoDup (systemAnnotations p).*1.
Proof. simpl. apply NoDup_ListNoDup. repeat constructor; simpl; intuition discriminate.
Qed.

(** What the projector makes of a [SystemProperties]. *)
Lemma projection_systemFields (p : SystemProperties) (key : string) :
  projection (systemFields p) !! key = annotationOf key (systemAnnotations p).
Proof.
  unfold projection. rewrite systemFields_entries.
  rewrite putAll_setRows by apply systemAnnotations_keys.
  by destruct (annotationOf key (systemAnnotations p)).
Qed.

(** A message that bears system properties goes out with annotations
    that hold exactly the properties that are set, each under the key its
    field is tagged with: no key for a property that is unset (never a
    null), and no other key. [toMsg] returns no error for it. *)
Theorem toMsg_system_annotations (m : Message) (p : SystemProperties) :
  SystemProps m = Some p ->
  exists w annotations,
    toMsg m = Ok w /\
    amqp.Annotations w = Some annotations /\
    forall key, annotations !! key = annotationOf key (systemAnnotations p).
Proof.
  intros Hp.
  destruct (toMsg_returns m) as (w & Hto & _ & _ & _ & _ & _ & Ha).
  rewrite Hp in Ha. exists w. eexists. split; [done|]. split; [exact Ha|].
  apply projection_systemFields.
Qed.

Lemma toMsg_system_annotations_witness :
  exists w annotations,
    toMsg annotatedMessage = Ok w /\
    amqp.Annotations w = Some annotations /\
    annotations !! "x-opt-sequence-number" = Some (VInt Int64 42) /\
    annotations !! "x-opt-partition-key" = Some (VString "p-1") /\
    annotations !! "x-opt-locked-until" = None /\
    annotations !! "sequence-number" = None.
Proof.
  destruct (toMsg_system_annotations annotatedMessage sampleSystemProperties eq_refl)
    as (w & annotations & Hto & Ha & Hkeys).
  exists w, annotations. split; [exact Hto|]. split; [exact Ha|].
  rewrite !Hkeys. repeat split; reflexivity.
Defined.

(** ** Scheduling *)

(** After [ScheduleAt(t)] the message goes out with [t] under the key of
    the scheduled enqueue time, and with every other system property it
    had before, no more. *)
Theorem ScheduleAt_annotations (m : Message) (t : Z) :
  exists w annotations,
    toMsg (ScheduleAt m t) = Ok w /\
    amqp.Annotations w = Some annotations /\
    annotations !! "x-opt-scheduled-enqueue-time" = Some (VTime t) /\
    forall key,
      key <> "x-opt-scheduled-enqueue-time" ->
      annotations !! key
      = match SystemProps m with
        | Some p => annotationOf key (systemAnnotations p)
        | None => None
        end.
Proof.
  destruct (toMsg_returns (ScheduleAt m t)) as (w & Hto & _ & _ & _ & _ & _ & Ha).
  simpl in Ha. exists w. eexists. split; [done|]. split; [exact Ha|].
  split; [by rewrite projection_systemFields|].
  intros key Hkey. rewrite projection_systemFields.
  destruct (SystemProps m) as [p|]; simpl;
    repeat (case_decide; [try done; by subst|]); done.
Qed.

(** ** What [toMsg] does to the wire message it reuses *)

Lemma toMsg_delivery_annotations (m : Message) :
  exists w,
    toMsg m = Ok w /\
    amqp.DeliveryAnnotations w
    = match LockToken m with
      | Some token =>
          Some (<[lockTokenName := VUUID token]>
                  (default ∅ (amqp.DeliveryAnnotations (wireBase m))))
      | None => amqp.DeliveryAnnotations (wireBase m)
      end.
Proof.
  unfold toMsg. fold (wireBase m).
  destruct (SystemProps m) as [sysProps|];
    [rewrite encodeStructureToMap_SystemProperties|];
    simpl; destruct (UserProperties m) as [props|];
    try destruct (decide (0 < size props)%nat);
    destruct (LockToken m), (TTL m);
    (eexists; split; [reflexivity|]; simpl);
    by destruct (amqp.DeliveryAnnotations (wireBase m)).
Qed.

(** A message that wraps a wire message is sent in that wire message.
    The payload and the delivery tag stay as they are, and the header, the
    application properties, the annotations and the delivery annotations
    are written only when the matching field of the message is set: what
    the application clears on the message stays on the wire. When a
    time-to-live is set, the other fields of an existing header are kept. *)
Theorem toMsg_keeps_wrapped (m : Message) (wrapped : amqp.Message) :
  message m = Some wrapped ->
  exists w,
    toMsg m = Ok w /\
    amqp.Data w = amqp.Data wrapped /\
    amqp.DeliveryTag w = amqp.DeliveryTag wrapped /\
    (TTL m = None -> amqp.Header w = amqp.Header wrapped) /\
    (forall ttl header,
       TTL m = Some ttl -> amqp.Header wrapped = Some header ->
       amqp.Header w = Some (setHeaderTTL ttl header)) /\
    (size (default ∅ (UserProperties m)) = 0%nat ->
       amqp.ApplicationProperties w = amqp.ApplicationProperties wrapped) /\
    (SystemProps m = None -> amqp.Annotations w = amqp.Annotations wrapped) /\
    (LockToken m = None ->
       amqp.DeliveryAnnotations w = amqp.DeliveryAnnotations wrapped).
Proof.
  intros Hm.
  destruct (toMsg_returns m) as (w & Hto & _ & Hh & Happ & Hdata & Htag & Ha).
  destruct (toMsg_delivery_annotations m) as (w' & Hto' & Hda).
  rewrite Hto in Hto'. injection Hto' as <-.
  unfold wireBase in *. rewrite Hm in *.
  exists w. split; [done|]. split; [done|]. split; [done|].
  split; [by intros Httl; rewrite Httl in Hh|].
  split; [intros ttl header Httl Hw; by rewrite Httl, Hw in Hh|].
  split; [|split].
  - intros Hsize. rewrite Happ. destruct (UserProperties m) as [props|]; [|done].
    simpl in Hsize. case_decide; [lia|done].
  - intros Hs. by rewrite Hs in Ha.
  - intros Hl. by rewrite Hl in Hda.
Qed.

Lemma toMsg_keeps_wrapped_witness :
  exists w,
    toMsg strippedMessage = Ok w /\
    amqp.Data w = [bytes_of_string "payload"] /\
    amqp.DeliveryTag w = sampleTag /\
    amqp.Header w = Some (headerWithCount 3) /\
    amqp.ApplicationProperties w = Some {[ "trace-id" := VString "abc" ]} /\
    amqp.Annotations w = Some {[ "x-opt-sequence-number" := VInt Int64 9 ]} /\
    amqp.DeliveryAnnotations w = Some {[ "x-opt-seen" := VBool true ]}.
Proof.
  destruct (toMsg_keeps_wrapped strippedMessage loadedWire eq_refl)
    as (w & Hto & Hdata & Htag & Hh & _ & Happ & Ha & Hda).
  exists w. split; [exact Hto|]. split; [exact Hdata|]. split; [exact Htag|].
  split; [by apply Hh|]. split; [by apply Happ|]. split; [by apply Ha|by apply Hda].
Defined.

(** A lock token goes out in the delivery annotations under the key
    [x-opt-lock-token]; the delivery annotations the wire message had are
    kept under every other key. *)
Theorem toMsg_lock_token (m : Message) (token : list byte) :
  LockToken m = Some token ->
  exists w annotations,
    toMsg m = Ok w /\
    amqp.DeliveryAnnotations w = Some annotations /\
    annotations !! lockTokenName = Some (VUUID token) /\
    forall key,
      key <> lockTokenName ->
      annotations !! key
      = default ∅ (amqp.DeliveryAnnotations (wireBase m)) !! key.
Proof.
  intros Hl. destruct (toMsg_delivery_annotations m) as (w & Hto & Hda).
  rewrite Hl in Hda. exists w. eexists. split; [done|]. split; [exact Hda|].
  split; [apply lookup_insert_eq|].
  intros key Hkey. by apply lookup_insert_ne.
Qed.

Lemma toMsg_lock_token_witness :
  exists w annotations,
    toMsg lockedMessage = Ok w /\
    amqp.DeliveryAnnotations w = Some annotations /\
    annotations !! "x-opt-lock-token" = Some (VUUID (swapGUIDBytes sampleTag)) /\
    annotations !! "x-opt-seen" = Some (VBool true).
Proof.
  destruct (toMsg_lock_token lockedMessage (swapGUIDBytes sampleTag) eq_refl)
    as (w & annotations & Hto & Hda & Htoken & Hother).
  exists w, annotations. split; [exact Hto|]. split; [exact Hda|].
  split; [exact Htoken|]. rewrite Hother by discriminate. reflexivity.
Defined.

(** ** Receiving and sending again *)

Section Resend.

Variable Decode : gmap string value -> option SystemProperties * option error.



(** An error of the annotation decoder comes back at once, next to the
    message built so far: the delivery tag is not looked at, so the message
    has no lock token whatever the tag is. *)
Theorem newMessage_decode_error (data : list byte) (w : amqp.Message)
    (annotations : gmap string value) (p : option SystemProperties) (e : error) :
  amqp.Properties w = None \/ amqp.Header w <> None ->
  amqp.Annotations w = Some annotations ->
  Decode annotations = (p, Some e) ->
  exists m,
    newMessage Decode data (Some w) = Returns m (Some e) /\
    SystemProps m = p /\ LockToken m = None /\
    Data m = data /\ UserProperties m = amqp.ApplicationProperties w.
Proof.
  intros Hpre Ha Hdec. unfold newMessage, readProperties.
  rewrite Ha, Hdec.
  destruct (amqp.Properties w) as [props|], (amqp.Header w) as [header|];
    try (by destruct Hpre as [|[]]);
    destruct (amqp.ApplicationProperties w) as [app|];
    (eexists; split; [reflexivity|]; simpl; by rewrite ?map_fold_copy).
Qed.

End Resend.


Lemma newMessage_decode_error_witness :
  exists m,
    newMessage decodeFails [] (Some loadedWire)
      = Returns m (Some (ForeignError "cannot decode")) /\
    SystemProps m = None /\ LockToken m = None /\
    Data m = [] /\ UserProperties m = Some {[ "trace-id" := VString "abc" ]}.
Proof.
  apply (newMessage_decode_error decodeFails [] loadedWire
           {[ "x-opt-sequence-number" := VInt Int64 9 ]} None
           (ForeignError "cannot decode"));
    [right; discriminate|reflexivity|reflexivity].
Defined.

(** ** The round trip and the group *)



(** ** The text-map writer *)


(** A property written with [Set] always reaches the wire: the wire
    message gets the user properties of the message, the new pair among
    them, in place of any application properties it had. *)
Theorem Set_toMsg (m : Message) (key val : string) :
  exists w props,
    toMsg (Set_ m key val) = Ok w /\
    amqp.ApplicationProperties w = Some props /\
    props = <[key := VString val]> (default ∅ (UserProperties m)) /\
    props !! key = Some (VString val).
Proof.
  destruct (toMsg_returns (Set_ m key val)) as (w & Hto & _ & _ & Happ & _).
  simpl in Happ. rewrite decide_True in Happ.
  - exists w. eexists. split; [done|]. split; [exact Happ|].
    split; [by destruct (UserProperties m)|apply lookup_insert_eq].
  - match goal with |- (0 < size ?x)%nat => destruct (size x) eqn:E end; [|lia].
    apply map_size_empty_iff in E. by apply insert_non_empty in E.
Qed.

Section Tracer.

(** The loop shows a recording handler every pair, in the order of the
    visit, and ends without error. *)
Lemma rangeUserProperties_recording (pairs seen : list (string * string)) :
  rangeUserProperties recordingHandler (asEntry <$> pairs) seen
  = (seen ++ pairs, Ok tt).
Proof.
  revert seen. induction pairs as [|[k v] pairs IH]; intros seen; simpl.
  - by rewrite app_nil_r.
  - rewrite IH. by rewrite <- app_assoc.
Qed.

Lemma strings_as_entries (entries : list (string * value)) :
  Forall (fun kv => exists s, kv.2 = VString s) entries ->
  exists pairs, entries = asEntry <$> pairs.
Proof.
  induction 1 as [|[k v] entries [s Hs] _ [pairs ->]]; [by exists []|].
  simpl in Hs. subst v. by exists ((k, s) :: pairs).
Qed.

(** What [Set] writes, [ForeachKey] reads back. On a message whose user
    properties are strings, every run of [ForeachKey] after [Set(key,
    value)] ends without error, having shown the handler each property of
    the message exactly once, the pair just set among them. *)
Theorem Set_ForeachKey (m : Message) (key val : string)
    (out : list (string * string) * result unit) :
  allStrings (default ∅ (UserProperties m)) ->
  ForeachKey recordingHandler (Set_ m key val) [] out ->
  exists seen,
    out = (seen, Ok tt) /\
    (key, val) ∈ seen /\
    asEntry <$> seen
    ≡ₚ map_to_list (<[key := VString val]> (default ∅ (UserProperties m))).
Proof.
  intros Hall (entries & Hperm & Hrun).
  replace (default ∅ (UserProperties (Set_ m key val)))
    with (<[key := VString val]> (default ∅ (UserProperties m))) in Hperm
    by (unfold Set_; simpl; by destruct (UserProperties m)).
  destruct (strings_as_entries entries) as [seen ->].
  { apply Forall_forall. intros [k v] Hin. simpl.
    rewrite Hperm in Hin. apply elem_of_map_to_list in Hin.
    destruct (decide (key = k)) as [->|Hne].
    - rewrite lookup_insert_eq in Hin. injection Hin as <-. by eexists.
    - rewrite lookup_insert_ne in Hin by done. by apply (Hall k v). }
  rewrite rangeUserProperties_recording in Hrun. simpl in Hrun.
  exists seen. split; [done|]. split; [|done].
  assert ((key, VString val) ∈ asEntry <$> seen) as Hin.
  { rewrite Hperm. apply elem_of_map_to_list, lookup_insert_eq. }
  apply list_elem_of_fmap in Hin as ([k v] & [= -> ->] & Hin). exact Hin.
Qed.

(** On a message with no user property, the map nil or empty,
    [ForeachKey] returns nil without calling the handler. *)
Theorem ForeachKey_empty {S : Type} (handler : string -> string -> S -> S * option error)
    (m : Message) (st : S) (out : S * result unit) :
  size (default ∅ (UserProperties m)) = 0%nat ->
  (ForeachKey handler m st out <-> out = (st, Ok tt)).
Proof.
  intros Hsize. apply map_size_empty_iff in Hsize.
  unfold ForeachKey. rewrite Hsize, map_to_list_empty. split.
  - intros (entries & Hperm & <-). apply Permutation_nil_r in Hperm. by subst.
  - intros ->. by exists [].
Qed.

End Tracer.

Lemma Set_ForeachKey_witness :
  exists seen,
    ([("trace-id", "abc")], Ok tt) = (seen, Ok tt) /\
    ("trace-id", "abc") ∈ seen /\
    asEntry <$> seen
    ≡ₚ map_to_list (<["trace-id" := VString "abc"]>
                      (default ∅ (UserProperties plainMessage))).
Proof.
  apply (Set_ForeachKey plainMessage "trace-id" "abc").
  - intros key val H. simpl in H. by rewrite lookup_empty in H.
  - exists [("trace-id", VString "abc")]. split; [|reflexivity].
    simpl. by rewrite insert_empty, map_to_list_singleton.
Defined.

Lemma ForeachKey_empty_witness :
  ForeachKey countingHandler plainMessage 0%nat (0%nat, Ok tt).
Proof.
  by apply (ForeachKey_empty countingHandler plainMessage 0%nat (0%nat, Ok tt) eq_refl).
Defined.

(** ** Dispositions of a message that was not received *)



(** [DeadLetter(err)] is [DeadLetterWithInfo(err, ErrorInternalError,
    nil)]: on a received message it rejects the wire message with the
    condition [amqp:internal-error], the text of the error and no info, and
    settles nothing else. *)
Theorem DeadLetter_internal_error (m : Message) (w : amqp.Message) (e : error)
    (log : settled) :
  message m = Some w ->
  DeadLetter m (Some e) log
  = Ok (log ++ [(w, Reject {| amqp.Condition := "amqp:internal-error";
                              amqp.Description := Error e;
                              amqp.Info := None |})]) /\
  DeadLetter m (Some e) log = DeadLetterWithInfo m (Some e) ErrorInternalError None log /\
  (forall err, DeadLetter m err log
               = DeadLetterWithInfo m err ErrorInternalError None log).
Proof.
  intros Hm. unfold DeadLetter, DeadLetterWithInfo, settle. rewrite Hm.
  split; [done|]. split; [done|]. by intros [|].
Qed.

Lemma DeadLetter_internal_error_witness :
  DeadLetter deliveredMessage (Some (ForeignError "bad")) []
  = Ok [(receivedMessage (Some (headerWithCount 0)),
         Reject {| amqp.Condition := "amqp:internal-error";
                   amqp.Description := "bad"; amqp.Info := None |})].
Proof.
  apply (proj1 (DeadLetter_internal_error deliveredMessage
                  (receivedMessage (Some (headerWithCount 0)))
                  (ForeignError "bad") [] eq_refl)).
Defined.

(** ** The flags of a tag *)

Lemma Split_first (name rest : string) (sep : ascii) :
  ~ occurs sep name ->
  strings.Split (String.append name (String sep rest)) sep
  = name :: strings.Split rest sep.
Proof.
  induction name as [|c name IH]; intros Hnot; simpl.
  - by rewrite decide_True.
  - simpl in Hnot. rewrite decide_False by (intros ->; tauto).
    rewrite IH by tauto. done.
Qed.

Lemma Split_single (name : string) (sep : ascii) :
  ~ occurs sep name -> strings.Split name sep = [name].
Proof.
  induction name as [|c name IH]; intros Hnot; simpl; [done|].
  simpl in Hnot. rewrite decide_False by (intros ->; tauto).
  by rewrite IH by tauto.
Qed.

(** A flag is compared as it stands between the commas. After a name
    without comma, a flag without comma that is not exactly [persistempty]
    makes the parse fail with an error naming it: the empty flag a trailing
    comma leaves, and [persistempty] with a space before it, among them.
    The name alone parses to [PersistEmpty] false, and the flag
    [persistempty], once or twice, to [PersistEmpty] true. Only the first
    [mapstructure] key of the tag counts. *)
Theorem parseMapStructureTag_flags (name flag : string) (others : reflect.StructTag) :
  ~ occurs "," name ->
  ~ occurs "," flag ->
  (flag <> "persistempty" ->
     parseMapStructureTag
       (("mapstructure", String.append name (String "," flag)) :: others)
     = Err (KeyNotUnderstood flag)) /\
  parseMapStructureTag (("mapstructure", name) :: others)
  = Ok (Some {| Name := strings.TrimSpace name; PersistEmpty := false |}) /\
  parseMapStructureTag
    (("mapstructure", String.append name ",persistempty") :: others)
  = Ok (Some {| Name := strings.TrimSpace name; PersistEmpty := true |}) /\
  parseMapStructureTag
    (("mapstructure", String.append name ",persistempty,persistempty") :: others)
  = Ok (Some {| Name := strings.TrimSpace name; PersistEmpty := true |}).
Proof.
  intros Hname Hflag. unfold parseMapStructureTag. simpl reflect.Lookup.
  cbv beta iota. rewrite !Split_first by done. rewrite !Split_single by done.
  simpl. split; [|done]. intros Hne. by rewrite decide_False.
Qed.

Lemma parseMapStructureTag_flags_witness :
  parseMapStructureTag [("mapstructure", "x-opt-partition-key, persistempty")]
    = Err (KeyNotUnderstood " persistempty") /\
  parseMapStructureTag [("mapstructure", "x-opt-partition-key,")]
    = Err (KeyNotUnderstood "") /\
  parseMapStructureTag [("mapstructure", "x-opt-partition-key,persistempty,persistempty")]
    = Ok (Some {| Name := "x-opt-partition-key"; PersistEmpty := true |}).
Proof.
  assert (~ occurs "," "x-opt-partition-key") as Hname by (simpl; intuition discriminate).
  split; [|split].
  - apply (proj1 (parseMapStructureTag_flags "x-opt-partition-key" " persistempty" []
                    Hname ltac:(simpl; intuition discriminate)));
      discriminate.
  - apply (proj1 (parseMapStructureTag_flags "x-opt-partition-key" "" []
                    Hname ltac:(simpl; tauto)));
      discriminate.
  - apply (proj2 (proj2 (proj2
      (parseMapStructureTag_flags "x-opt-partition-key" "" [] Hname ltac:(simpl; tauto))))).
Defined.

(** ** The lock token and the delivery tag *)

(** The codec loses nothing: two wire messages with the same lock token
    have the same delivery tag. *)
Theorem lockTokenFromMessageTag_injective (msg1 msg2 : amqp.Message)
    (lockToken : list byte) :
  lockTokenFromMessageTag msg1 = Ok lockToken ->
  lockTokenFromMessageTag msg2 = Ok lockToken ->
  amqp.DeliveryTag msg1 = amqp.DeliveryTag msg2.
Proof.
  unfold lockTokenFromMessageTag.
  destruct (decide (length (amqp.DeliveryTag msg1) ≠ 16%nat)) as [|H1]; [done|].
  destruct (decide (length (amqp.DeliveryTag msg2) ≠ 16%nat)) as [|H2]; [done|].
  apply dec_stable in H1. apply dec_stable in H2.
  destruct (length_16_inv _ H1) as (?&?&?&?&?&?&?&?&?&?&?&?&?&?&?&?&->).
  destruct (length_16_inv _ H2) as (?&?&?&?&?&?&?&?&?&?&?&?&?&?&?&?&->).
  simpl. intros [= <-] [= -> -> -> -> -> -> -> -> -> -> -> -> -> -> -> ->]. done.
Qed.

Lemma lockTokenFromMessageTag_injective_witness :
  amqp.DeliveryTag (taggedMessage sampleTag)
  = amqp.DeliveryTag
      {| amqp.Header := None; amqp.DeliveryAnnotations := None;
         amqp.Annotations := None; amqp.Properties := Some sampleProperties;
         amqp.ApplicationProperties := None; amqp.Data := [[x00%byte]];
         amqp.DeliveryTag := sampleTag |}.
Proof.
  apply (lockTokenFromMessageTag_injective _ _ (swapGUIDBytes sampleTag));
    reflexivity.
Defined.

(** The lock token is the delivery tag with its first three groups, of
    4, 2 and 2 bytes, reversed and its last 8 bytes as they are: each of
    the three groups spells, most significant byte first in the token, the
    number it spells least significant byte first in the tag. *)
Theorem lockToken_byte_order (msg : amqp.Message) (lockToken : list byte) :
  lockTokenFromMessageTag msg = Ok lockToken ->
  let tag := amqp.DeliveryTag msg in
  lockToken
  = rev (take 4 tag) ++ rev (take 2 (drop 4 tag)) ++ rev (take 2 (drop 6 tag))
    ++ drop 8 tag /\
  bigEndian (take 4 lockToken) = littleEndian (take 4 tag) /\
  bigEndian (take 2 (drop 4 lockToken)) = littleEndian (take 2 (drop 4 tag)) /\
  bigEndian (take 2 (drop 6 lockToken)) = littleEndian (take 2 (drop 6 tag)) /\
  drop 8 lockToken = drop 8 tag.
Proof.
  unfold lockTokenFromMessageTag.
  destruct (decide (length (amqp.DeliveryTag msg) ≠ 16%nat)) as [|H]; [done|].
  apply dec_stable in H.
  destruct (length_16_inv _ H) as (?&?&?&?&?&?&?&?&?&?&?&?&?&?&?&?&->).
  intros [= <-]. by repeat split.
Qed.

Lemma lockToken_byte_order_witness :
  let tag := sampleTag in
  swapGUIDBytes sampleTag
  = rev (take 4 tag) ++ rev (take 2 (drop 4 tag)) ++ rev (take 2 (drop 6 tag))
    ++ drop 8 tag /\
  bigEndian (take 4 (swapGUIDBytes sampleTag)) = littleEndian (take 4 tag) /\
  bigEndian (take 2 (drop 4 (swapGUIDBytes sampleTag)))
    = littleEndian (take 2 (drop 4 tag)) /\
  bigEndian (take 2 (drop 6 (swapGUIDBytes sampleTag)))
    = littleEndian (take 2 (drop 6 tag)) /\
  drop 8 (swapGUIDBytes sampleTag) = drop 8 tag.
Proof.
  apply (lockToken_byte_order (taggedMessage sampleTag) (swapGUIDBytes sampleTag)).
  reflexivity.
Defined.

(** ** Failures of the projector *)

(** The projector gives up at the first settable field it cannot get
    through, and nothing of the fields before it is returned: a tag with
    an unknown option gives the parser's error, and a tagged field that is
    not a pointer and whose type Go cannot compare gives a panic, also
    when its tag says [persistempty], because the comparison with the zero
    value comes first. *)
Theorem encodeStructureToMap_first_failure
    (before after : list (reflect.StructField * value))
    (tf : reflect.StructField) (f : value) :
  Forall (fun fld => projectable fld = true) before ->
  reflect.Exported tf = true ->
  (forall e, parseMapStructureTag (reflect.Tag tf) = Err e ->
     encodeStructureToMap (VPtr (Some (VStruct (before ++ (tf, f) :: after))))
     = Err e) /\
  (forall tag, parseMapStructureTag (reflect.Tag tf) = Ok (Some tag) ->
     comparable f = false ->
     encodeStructureToMap (VPtr (Some (VStruct (before ++ (tf, f) :: after))))
     = Panic UncomparableType).
Proof.
  intros Hbefore Hex. simpl. split.
  - intros e Hparse. by apply encodeFields_tag_error.
  - intros tag Hparse Hcmp. generalize (∅ : gmap string value).
    induction Hbefore as [|fld fields Hfld _ IH]; intros encoded.
    + by eapply encodeFields_uncomparable.
    + rewrite <- app_comm_cons, encodeFields_cons by done. apply IH.
Qed.

Lemma encodeStructureToMap_first_failure_witness :
  encodeStructureToMap (VPtr (Some (VStruct oddTagSample)))
    = Err (KeyNotUnderstood "omitempty") /\
  encodeStructureToMap (VPtr (Some (VStruct sliceSample))) = Panic UncomparableType.
Proof.
  split.
  - apply (proj1 (encodeStructureToMap_first_failure
                    [field "Kept" "kept" (VInt Int64 1)]
                    [field "Never" "never" (VInt Int64 3)]
                    {| reflect.Name := "Odd"; reflect.Exported := true;
                       reflect.Tag := [("mapstructure", "odd,omitempty")] |}
                    (VInt Int64 2) ltac:(repeat constructor) eq_refl)).
    reflexivity.
  - apply (proj2 (encodeStructureToMap_first_failure
                    [field "Kept" "kept" (VInt Int64 1)] []
                    {| reflect.Name := "Body"; reflect.Exported := true;
                       reflect.Tag := [("mapstructure", "body,persistempty")] |}
                    (VBytes [x01%byte]) ltac:(repeat constructor) eq_refl)
             {| Name := "body"; PersistEmpty := true |});
      reflexivity.
Defined.

(** ** The name of a parsed tag *)

Lemma occurs_elem_of (c : ascii) (s : string) :
  occurs c s <-> c ∈ String.list_ascii_of_string s.
Proof.
  induction s as [|d s IH]; simpl.
  - split; [done|by intros ?%elem_of_nil].
  - rewrite elem_of_cons, IH. done.
Qed.

(** The name a parse returns neither begins nor ends with a white-space
    rune and holds no comma. *)
Theorem parseMapStructureTag_name (tag : reflect.StructTag) (mapTag : mapStructureTag) :
  parseMapStructureTag tag = Ok (Some mapTag) ->
  strings.spacePrefix (String.list_ascii_of_string (Name mapTag)) = 0%nat /\
  strings.spaceSuffix (rev (String.list_ascii_of_string (Name mapTag))) = 0%nat /\
  ~ occurs "," (Name mapTag).
Proof.
  unfold parseMapStructureTag.
  destruct (reflect.Lookup tag "mapstructure") as [str|]; [|done].
  pose proof (Split_pieces str ",") as Hpieces.
  destruct (strings.Split str ",") as [|first flags]; [done|].
  apply Forall_cons in Hpieces as [Hfirst _].
  destruct (flags_cases flags) as [Hall|(acc & bad & oth & -> & Hacc & Hbad)].
  - rewrite parseTagKeys_persistempty by done. simpl. intros [= <-]. simpl.
    destruct (TrimSpace_spec first) as (front & back & Heq & _ & _ & Hpre & Hsuf).
    split; [done|]. split; [done|].
    intros Hocc. apply Hfirst. apply occurs_elem_of. rewrite Heq.
    apply occurs_elem_of in Hocc. rewrite !elem_of_app. tauto.
  - by rewrite parseTagKeys_unknown.
Qed.

Lemma parseMapStructureTag_name_witness :
  strings.spacePrefix (String.list_ascii_of_string "x-opt-partition-key") = 0%nat /\
  strings.spaceSuffix (rev (String.list_ascii_of_string "x-opt-partition-key")) = 0%nat /\
  ~ occurs "," "x-opt-partition-key".
Proof.
  apply (parseMapStructureTag_name
           [("mapstructure", " x-opt-partition-key ,persistempty")]
           {| Name := "x-opt-partition-key"; PersistEmpty := true |}).
  reflexivity.
Defined.

(** ** Scheduling twice *)

(** Scheduling again replaces the time: only the last call counts, and
    [ScheduleAt] changes nothing else of the message. *)
Theorem ScheduleAt_last (m : Message) (t1 t2 : Z) :
  ScheduleAt (ScheduleAt m t1) t2 = ScheduleAt m t2 /\
  (exists p, SystemProps (ScheduleAt m t2) = Some p /\
             ScheduledEnqueueTime p = Some t2) /\
  setSystemProps (SystemProps m) (ScheduleAt m t2) = m.
Proof.
  unfold ScheduleAt. split; [|split].
  - by destruct (SystemProps m).
  - eexists. by split.
  - by destruct m.
Qed.
